(** * LiberTEM: the Norpix SEQ reader and the frame-summing job

    A shallow embedding of [libertem/io/dataset/seq.py] and
    [libertem/job/sum.py].  Python integers are [Z], [bytes] objects are
    lists of [byte], [str] objects are lists of code points, dictionaries
    are [gmap]s, exceptions are values of [exn] carried by [result], and
    the attributes of a [SEQDataSet] object are the fields of a record
    that is threaded through the methods mutating it. *)

From Stdlib Require Import ZArith Lia Strings.Byte.
From stdpp Require Import gmap strings list pretty.

(** ** Exceptions and results *)

(** The exception classes that the modelled code can meet.  [OSError]
    stands for itself and its subclasses ([FileNotFoundError], ...),
    [StructError] for [struct.error], [MrcError] for whatever the external
    MRC reader raises on a file it cannot decode. *)
Inductive exn : Type :=
| OSError
| StructError
| UnicodeDecodeError
| TypeError
| KeyError (key : string)
| AttributeError (attr : string)
| ZeroDivisionError
| OverflowError
| UFuncTypeError
| MrcError
| DataSetException (msg : string).

Inductive result (A : Type) : Type :=
| Ok (a : A)
| Raise (e : exn).
Arguments Ok {A} a.
Arguments Raise {A} e.

Global Instance result_ret : MRet result := λ A a, Ok a.
Global Instance result_bind : MBind result := λ A B f m,
  match m with
  | Ok a => f a
  | Raise e => Raise e
  end.
Global Instance result_fmap : FMap result := λ A B f m,
  match m with
  | Ok a => Ok (f a)
  | Raise e => Raise e
  end.

Definition is_ok {A} (r : result A) : bool :=
  match r with Ok _ => true | Raise _ => false end.

Global Instance exn_eq_dec : EqDecision exn.
Proof. solve_decision. Defined.
Global Instance result_eq_dec {A} `{EqDecision A} : EqDecision (result A).
Proof. solve_decision. Defined.
Global Instance byte_eq_decision : EqDecision byte := Byte.byte_eq_dec.

(** ** [bytes] objects *)

Definition byte_val (b : byte) : Z := Z.of_N (Byte.to_N b).

(** Little-endian unsigned reading of a byte string. *)
Fixpoint le_uint (bs : list byte) : Z :=
  match bs with
  | [] => 0
  | b :: bs' => byte_val b + 256 * le_uint bs'
  end%Z.

(** Two's complement reading on [w] bits. *)
Definition to_signed (w : Z) (n : Z) : Z :=
  (if 2 ^ (w - 1) <=? n then n - 2 ^ w else n)%Z.

Fixpoint bytes_startswith (s sub : list byte) {struct sub} : bool :=
  match sub, s with
  | [], _ => true
  | _ :: _, [] => false
  | x :: sub', y :: s' => Byte.eqb x y && bytes_startswith s' sub'
  end.

(** [s.index(sub)], [None] where Python raises [ValueError];
    [sub in s] is [is_Some] of it. *)
Fixpoint bytes_index (sub s : list byte) : option nat :=
  if bytes_startswith s sub then Some 0%nat
  else match s with
       | [] => None
       | _ :: s' => S <$> bytes_index sub s'
       end.

Definition bytes_contains (sub s : list byte) : bool :=
  match bytes_index sub s with Some _ => true | None => false end.

(** ** The [utf16] codec

    [bytes.decode("utf16")] in strict mode: a leading byte order mark
    selects the byte order and is dropped, otherwise the native order
    (little endian) is used; code units are 16 bits; a high surrogate must
    be followed by a low surrogate; a lone low surrogate, a missing or
    wrong second surrogate, and a trailing odd byte are decoding errors. *)

Definition code_unit (big_endian : bool) (b0 b1 : byte) : Z :=
  (if big_endian then 256 * byte_val b0 + byte_val b1
   else byte_val b0 + 256 * byte_val b1)%Z.

Definition is_high_surrogate (ch : Z) : bool :=
  ((0xD800 <=? ch) && (ch <=? 0xDBFF))%Z.
Definition is_low_surrogate (ch : Z) : bool :=
  ((0xDC00 <=? ch) && (ch <=? 0xDFFF))%Z.

Fixpoint utf16_units (big_endian : bool) (q : list byte) : result (list Z) :=
  match q with
  | [] => Ok []
  | [_] => Raise UnicodeDecodeError
  | b0 :: b1 :: rest =>
      let ch := code_unit big_endian b0 b1 in
      if is_high_surrogate ch then
        match rest with
        | b2 :: b3 :: rest' =>
            let ch2 := code_unit big_endian b2 b3 in
            if is_low_surrogate ch2 then
              cons (0x10000 + (ch - 0xD800) * 1024 + (ch2 - 0xDC00))%Z
                <$> utf16_units big_endian rest'
            else Raise UnicodeDecodeError
        | _ => Raise UnicodeDecodeError
        end
      else if is_low_surrogate ch then Raise UnicodeDecodeError
      else cons ch <$> utf16_units big_endian rest
  end.

Definition utf16_decode (q : list byte) : result (list Z) :=
  match q with
  | b0 :: b1 :: rest =>
      if Byte.eqb b0 xff && Byte.eqb b1 xfe then utf16_units false rest
      else if Byte.eqb b0 xfe && Byte.eqb b1 xff then utf16_units true rest
      else utf16_units false q
  | _ => utf16_units false q
  end.

(** ** [struct] formats *)

(** The format characters used by the header table: ['L'], ['l'], ['d'],
    ['H'] and ['<n>s'].  With the ['<'] prefix that the reader always adds
    they have their standard sizes and no alignment. *)
Inductive struct_fmt : Type :=
| FmtL
| Fmtl
| Fmtd
| FmtH
| Fmts (n : nat).

Definition DWORD := FmtL.
Definition LONG := Fmtl.
Definition DOUBLE := Fmtd.
Definition USHORT := FmtH.

Definition struct_size (fs : struct_fmt) : nat :=
  match fs with
  | FmtL => 4
  | Fmtl => 4
  | Fmtd => 8
  | FmtH => 2
  | Fmts n => n
  end.

(** The values a decoded header holds.  A double is kept as its 64-bit
    pattern: no modelled code looks inside one. *)
Inductive value : Type :=
| VInt (n : Z)
| VFloat (bits : Z)
| VBytes (b : list byte)
| VStr (s : list Z).

Global Instance value_eq_dec : EqDecision value.
Proof. solve_decision. Defined.

(** [struct.Struct('<' + fs).unpack(buf)]: every format here yields a
    1-tuple, whose single element is returned. *)
Definition struct_unpack (fs : struct_fmt) (buf : list byte) : result value :=
  if bool_decide (length buf = struct_size fs) then
    Ok match fs with
       | FmtL => VInt (le_uint buf)
       | Fmtl => VInt (to_signed 32 (le_uint buf))
       | Fmtd => VFloat (le_uint buf)
       | FmtH => VInt (le_uint buf)
       | Fmts _ => VBytes buf
       end
  else Raise StructError.

(** ** Header decoding *)

Definition HEADER_FIELDS : list (string * struct_fmt) :=
  [ ("magic", DWORD);
    ("name", Fmts 24);
    ("version", LONG);
    ("header_size", LONG);
    ("description", Fmts 512);
    ("width", DWORD);
    ("height", DWORD);
    ("bit_depth", DWORD);
    ("bit_depth_real", DWORD);
    ("image_size_bytes", DWORD);
    ("image_format", DWORD);
    ("allocated_frames", DWORD);
    ("origin", DWORD);
    ("true_image_size", DWORD);
    ("suggested_frame_rate", DOUBLE);
    ("description_format", LONG);
    ("reference_frame", DWORD);
    ("fixed_size", DWORD);
    ("flags", DWORD);
    ("bayer_pattern", LONG);
    ("time_offset_us", LONG);
    ("extended_header_size", LONG);
    ("compression_format", DWORD);
    ("reference_time_s", LONG);
    ("reference_time_ms", USHORT);
    ("reference_time_us", USHORT) ].

Definition fields_size (fields : list (string * struct_fmt)) : nat :=
  sum_list_with (λ field, struct_size field.2) fields.

Definition HEADER_SIZE : nat := fields_size HEADER_FIELDS.

Definition _unpack_header_field (header_part : list byte) (fs : struct_fmt)
  : result (value * nat) :=
  let size := struct_size fs in
  vals ← struct_unpack fs (take size header_part);
  Ok (vals, size).

Definition end_mark : list byte := [x00; x00].

Definition _decode_str (str_in : list byte) : result (list Z) :=
  let end_pos := length str_in in
  let end_pos :=
    if bytes_contains end_mark str_in
    then (default 0 (bytes_index end_mark str_in) + 1)%nat
    else end_pos in
  utf16_decode (take end_pos str_in).

(** [_decode_str(val)] on a header value: only a [bytes] value has a
    length and an [index] method. *)
Definition decode_value (val : value) : result value :=
  match val with
  | VBytes b => VStr <$> _decode_str b
  | _ => Raise TypeError
  end.

Definition str_fields : gset string := {[ "name"; "description" ]}.

(** The loop of [_unpack_header], with its two loop variables. *)
Fixpoint unpack_loop (header_bytes : list byte)
    (fields : list (string * struct_fmt)) (pos : nat)
    (tmp : gmap string value) : result (gmap string value) :=
  match fields with
  | [] => Ok tmp
  | (name, fmt) :: fields' =>
      let header_part := drop pos header_bytes in
      '(val, size) ← _unpack_header_field header_part fmt;
      val ← (if bool_decide (name ∈ str_fields) then decode_value val
             else Ok val);
      unpack_loop header_bytes fields' (pos + size) (<[name := val]> tmp)
  end.

Definition _unpack_header (header_bytes : list byte)
    (fields : list (string * struct_fmt)) : result (gmap string value) :=
  unpack_loop header_bytes fields 0 ∅.

(** The file system is a map from the paths of the regular files to their
    content. *)
Definition os_path_exists (fs : gmap string (list byte)) (path : string)
  : bool :=
  bool_decide (is_Some (fs !! path)).

Definition os_stat_st_size (fs : gmap string (list byte)) (path : string)
  : result Z :=
  match fs !! path with
  | Some content => Ok (Z.of_nat (length content))
  | None => Raise OSError
  end.

Definition _read_header (fs : gmap string (list byte)) (path : string)
    (fields : list (string * struct_fmt)) : result (gmap string value) :=
  match fs !! path with
  | Some content => _unpack_header (take HEADER_SIZE content) fields
  | None => Raise OSError
  end.

(** [header[key]] for a field holding an integer.  Every field read below
    is declared with an integer format in [HEADER_FIELDS]. *)
Definition header_int (header : gmap string value) (key : string) : result Z :=
  match header !! key with
  | Some (VInt n) => Ok n
  | Some _ => Raise TypeError
  | None => Raise (KeyError key)
  end.

Definition _get_image_offset (header : gmap string value) : result Z :=
  version ← header_int header "version";
  if (5 <=? version)%Z then Ok 8192%Z else Ok 1024%Z.

(** ** True division and [int()]

    [a / b] on Python integers is the binary64 number nearest to the exact
    quotient, ties going to the even significand; it raises
    [ZeroDivisionError] for a zero divisor and [OverflowError] when the
    rounded quotient reaches [2 ^ 1024].  [int(x)] truncates toward zero. *)

(** A finite binary64 value, [f_mant * 2 ^ f_exp]. *)
Record float64 : Type := mk_float64 { f_mant : Z; f_exp : Z }.

Definition scale_num (a e : Z) : Z := (if e <? 0 then a * 2 ^ (- e) else a)%Z.
Definition scale_den (b e : Z) : Z := (if e <? 0 then b else b * 2 ^ e)%Z.

(** Nearest integer to [n / d], ties to even, for [0 <= n] and [0 < d]. *)
Definition round_half_even (n d : Z) : Z :=
  (let q := n / d in
   let r := n mod d in
   if 2 * r <? d then q
   else if d <? 2 * r then q + 1
   else if Z.even q then q else q + 1)%Z.

(** The exponent of the last place of the quotient of two positive
    integers: the [e] with [2 ^ 52 <= a / (b * 2 ^ e) < 2 ^ 53], but not
    below the exponent of the subnormal numbers. *)
Definition quotient_exponent (a b : Z) : Z :=
  (let e0 := Z.log2 a - Z.log2 b - 52 in
   let e := if 2 ^ 52 * scale_den b e0 <=? scale_num a e0 then e0 else e0 - 1 in
   Z.max e (-1074))%Z.

Definition py_true_div (a b : Z) : result float64 :=
  (if b =? 0 then Raise ZeroDivisionError
   else if a =? 0 then Ok (mk_float64 0 0)
   else
     let e := quotient_exponent (Z.abs a) (Z.abs b) in
     let m := round_half_even (scale_num (Z.abs a) e) (scale_den (Z.abs b) e) in
     if 2 ^ 1024 <=? m * 2 ^ e then Raise OverflowError
     else Ok (mk_float64 (Z.sgn a * Z.sgn b * m) e))%Z.

Definition py_int (x : float64) : Z :=
  (if 0 <=? f_exp x then f_mant x * 2 ^ f_exp x
   else Z.quot (f_mant x) (2 ^ (- f_exp x)))%Z.

(** ** NumPy data types, shapes *)

Inductive dtype : Type :=
| DBool
| DUInt (bits : Z)
| DInt (bits : Z)
| DFloat (bits : Z)
| DComplex (bits : Z).

Global Instance dtype_eq_dec : EqDecision dtype.
Proof. solve_decision. Defined.

Definition float32 : dtype := DFloat 32.

Definition itemsize (dt : dtype) : Z :=
  match dt with
  | DBool => 1
  | DUInt b | DInt b | DFloat b | DComplex b => b / 8
  end%Z.

(** [dtype.kind] *)
Definition kind (dt : dtype) : string :=
  match dt with
  | DBool => "b"
  | DUInt _ => "u"
  | DInt _ => "i"
  | DFloat _ => "f"
  | DComplex _ => "c"
  end.

(** [np.dtype('uint%i' % bit_depth)]: NumPy knows the names [uint8],
    [uint16], [uint32] and [uint64], and raises [TypeError] for a name it
    does not understand. *)
Definition np_dtype_uint (bit_depth : Z) : result dtype :=
  if bool_decide (bit_depth ∈ [8; 16; 32; 64]%Z) then Ok (DUInt bit_depth)
  else Raise TypeError.

(** [np.prod] of a tuple of integers that fit [int64]: NumPy multiplies
    in [int64], with wrap-around.  (NumPy gives a tuple with an element
    outside [int64] another array type; the model does not cover it.) *)
Definition wrap_int64 (n : Z) : Z := to_signed 64 (n mod 2 ^ 64)%Z.

Definition np_prod (l : list Z) : Z :=
  foldl (λ acc x, wrap_int64 (acc * x)) 1%Z l.

(** Modelled from the spec: [libertem.common.Shape], an ordered tuple of
    navigation dimensions followed by [sig_dims] signal dimensions. *)
Record Shape : Type := mk_Shape { shape_dims : list Z; sig_dims : nat }.

Global Instance Shape_eq_dec : EqDecision Shape.
Proof. solve_decision. Defined.

Definition shape_nav (s : Shape) : list Z :=
  take (length (shape_dims s) - sig_dims s) (shape_dims s).
Definition shape_sig (s : Shape) : list Z :=
  drop (length (shape_dims s) - sig_dims s) (shape_dims s).

Fixpoint list_prod (l : list Z) : Z :=
  match l with
  | [] => 1
  | x :: l' => x * list_prod l'
  end%Z.

(** [shape.nav.size]: the number of frames. *)
Definition nav_size (s : Shape) : Z := list_prod (shape_nav s).

(** Modelled from the spec: [libertem.common.Slice], the region of the
    logical array with the given origin and extent. *)
Record Slice : Type := mk_Slice { slice_origin : list Z; slice_shape : Shape }.

Record DataSetMeta : Type := mk_DataSetMeta {
  meta_shape : Shape;
  meta_raw_dtype : dtype;
  meta_dtype : dtype;
  meta_metadata : gmap string value
}.

Global Instance DataSetMeta_eq_dec : EqDecision DataSetMeta.
Proof. solve_decision. Defined.

(** Modelled from the spec: [BasePartition.make_slices] of
    [libertem.io.dataset.base], the Partitioner.  The frames are split
    into [num_partitions] contiguous chunks of
    [num_frames // num_partitions] frames each, the last chunk taking the
    remainder as well; each chunk comes with its slice of the logical
    array and its start and stop frame. *)
Definition make_slices (shape : Shape) (num_partitions : Z)
  : list (Slice * Z * Z) :=
  let num_frames := nav_size shape in
  let f_per_part := (num_frames / num_partitions)%Z in
  (λ i : Z,
     let start := (i * f_per_part)%Z in
     let stop := if (i =? num_partitions - 1)%Z then num_frames
                 else ((i + 1) * f_per_part)%Z in
     (mk_Slice (start :: ((λ _, 0%Z) <$> shape_sig shape))
               (mk_Shape ((stop - start)%Z :: shape_sig shape)
                         (length (shape_sig shape))),
      start, stop))
  <$> seqZ 0 num_partitions.

(** ** The dataset *)

Section SEQ.
(** The dense arrays that the external MRC reader produces, the decoder
    behind [ncempy.io.mrc.mrcReader] ([None] where it raises) and
    [np.squeeze]; the file set class of [libertem.io.dataset.base] with
    its restriction to a frame range. *)
Context {ndarray : Type}.
Variable mrc_decode : list byte → option ndarray.
Variable np_squeeze : ndarray → ndarray.

Record LocalFile : Type := mk_LocalFile {
  lf_path : string;
  lf_start_idx : Z;
  lf_end_idx : option Z;
  lf_native_dtype : dtype;
  lf_sig_shape : list Z;
  lf_frame_footer : option Z;
  lf_frame_header : Z;
  lf_file_header : option Z
}.

Record SEQFileSet : Type := mk_SEQFileSet {
  fileset_files : list LocalFile;
  frame_footer_bytes : option Z
}.

Variable get_for_range : SEQFileSet → Z → Z → SEQFileSet.

Record CorrectionSet : Type := mk_CorrectionSet {
  cs_dark : option ndarray;
  cs_gain : option ndarray
}.

(** The attributes of a [SEQDataSet] object.  [None] is Python's [None],
    or an attribute that has not been assigned yet; [_cores] is set by
    the base class. *)
Record SEQDataSet : Type := mk_SEQDataSet {
  _path : string;
  _scan_size : list Z;
  _header : option (gmap string value);
  _meta : option DataSetMeta;
  _footer_size : option Z;
  _filesize : option Z;
  _image_count : option Z;
  _dark : option ndarray;
  _gain : option ndarray;
  _image_offset : option Z;
  _timestamp_micro : option bool;
  _cores : Z
}.

(** [SEQDataSet.__init__] *)
Definition __init__ (path : string) (scan_size : list Z) (cores : Z)
  : SEQDataSet :=
  {| _path := path; _scan_size := scan_size; _header := None;
     _meta := None; _footer_size := None; _filesize := None;
     _image_count := None; _dark := None; _gain := None;
     _image_offset := None; _timestamp_micro := None; _cores := cores |}.

Definition set_header v (s : SEQDataSet) : SEQDataSet :=
  {| _path := _path s; _scan_size := _scan_size s; _header := v;
     _meta := _meta s; _footer_size := _footer_size s;
     _filesize := _filesize s; _image_count := _image_count s;
     _dark := _dark s; _gain := _gain s; _image_offset := _image_offset s;
     _timestamp_micro := _timestamp_micro s; _cores := _cores s |}.
Definition set_meta v (s : SEQDataSet) : SEQDataSet :=
  {| _path := _path s; _scan_size := _scan_size s; _header := _header s;
     _meta := v; _footer_size := _footer_size s;
     _filesize := _filesize s; _image_count := _image_count s;
     _dark := _dark s; _gain := _gain s; _image_offset := _image_offset s;
     _timestamp_micro := _timestamp_micro s; _cores := _cores s |}.
Definition set_footer_size v (s : SEQDataSet) : SEQDataSet :=
  {| _path := _path s; _scan_size := _scan_size s; _header := _header s;
     _meta := _meta s; _footer_size := v;
     _filesize := _filesize s; _image_count := _image_count s;
     _dark := _dark s; _gain := _gain s; _image_offset := _image_offset s;
     _timestamp_micro := _timestamp_micro s; _cores := _cores s |}.
Definition set_filesize v (s : SEQDataSet) : SEQDataSet :=
  {| _path := _path s; _scan_size := _scan_size s; _header := _header s;
     _meta := _meta s; _footer_size := _footer_size s;
     _filesize := v; _image_count := _image_count s;
     _dark := _dark s; _gain := _gain s; _image_offset := _image_offset s;
     _timestamp_micro := _timestamp_micro s; _cores := _cores s |}.
Definition set_image_count v (s : SEQDataSet) : SEQDataSet :=
  {| _path := _path s; _scan_size := _scan_size s; _header := _header s;
     _meta := _meta s; _footer_size := _footer_size s;
     _filesize := _filesize s; _image_count := v;
     _dark := _dark s; _gain := _gain s; _image_offset := _image_offset s;
     _timestamp_micro := _timestamp_micro s; _cores := _cores s |}.
Definition set_dark v (s : SEQDataSet) : SEQDataSet :=
  {| _path := _path s; _scan_size := _scan_size s; _header := _header s;
     _meta := _meta s; _footer_size := _footer_size s;
     _filesize := _filesize s; _image_count := _image_count s;
     _dark := v; _gain := _gain s; _image_offset := _image_offset s;
     _timestamp_micro := _timestamp_micro s; _cores := _cores s |}.
Definition set_gain v (s : SEQDataSet) : SEQDataSet :=
  {| _path := _path s; _scan_size := _scan_size s; _header := _header s;
     _meta := _meta s; _footer_size := _footer_size s;
     _filesize := _filesize s; _image_count := _image_count s;
     _dark := _dark s; _gain := v; _image_offset := _image_offset s;
     _timestamp_micro := _timestamp_micro s; _cores := _cores s |}.
Definition set_image_offset v (s : SEQDataSet) : SEQDataSet :=
  {| _path := _path s; _scan_size := _scan_size s; _header := _header s;
     _meta := _meta s; _footer_size := _footer_size s;
     _filesize := _filesize s; _image_count := _image_count s;
     _dark := _dark s; _gain := _gain s; _image_offset := v;
     _timestamp_micro := _timestamp_micro s; _cores := _cores s |}.
Definition set_timestamp_micro v (s : SEQDataSet) : SEQDataSet :=
  {| _path := _path s; _scan_size := _scan_size s; _header := _header s;
     _meta := _meta s; _footer_size := _footer_size s;
     _filesize := _filesize s; _image_count := _image_count s;
     _dark := _dark s; _gain := _gain s; _image_offset := _image_offset s;
     _timestamp_micro := v; _cores := _cores s |}.

(** Methods that assign attributes of [self] and may raise: the object
    keeps the assignments made before an exception. *)
Definition method (A : Type) : Type := SEQDataSet → result A * SEQDataSet.

Definition method_bind {A B} (m : method A) (f : A → method B) : method B :=
  λ s, match m s with
       | (Ok a, s') => f a s'
       | (Raise e, s') => (Raise e, s')
       end.
Definition lift {A} (r : result A) : method A := λ s, (r, s).
Definition raise {A} (e : exn) : method A := λ s, (Raise e, s).
Definition assign (f : SEQDataSet → SEQDataSet) : method unit :=
  λ s, (Ok tt, f s).
Definition self : method SEQDataSet := λ s, (Ok s, s).

Notation "'do' x <- m ; k" := (method_bind m (λ x, k))
  (at level 10, x name, m at level 100, k at level 200,
   format "'[v' 'do'  x  <-  m ; '/' k ']'").
Notation "m ;; k" := (method_bind m (λ _, k))
  (at level 100, k at level 200, right associativity).

(** [int((filesize - image_offset) / true_image_size)] *)
Definition count_frames (filesize image_offset true_image_size : Z)
  : result Z :=
  py_int <$> py_true_div (filesize - image_offset) true_image_size.

Definition _maybe_load_mrc (fs : gmap string (list byte)) (path : string)
  : result (option ndarray) :=
  if negb (os_path_exists fs path) then Ok None
  else
    match fs !! path with
    | Some content =>
        match mrc_decode content with
        | Some data => Ok (Some (np_squeeze data))
        | None => Raise MrcError
        end
    | None => Raise OSError
    end.

Definition _maybe_load_dark_gain (fs : gmap string (list byte))
  : method unit :=
  do s <- self;
  do dark <- lift (_maybe_load_mrc fs (_path s +:+ ".dark.mrc"));
  assign (set_dark dark);;
  do gain <- lift (_maybe_load_mrc fs (_path s +:+ ".gain.mrc"));
  assign (set_gain gain).

Definition get_correction_data (s : SEQDataSet) : CorrectionSet :=
  {| cs_dark := _dark s; cs_gain := _gain s |}.

Definition scan_size_mismatch : string :=
  "scan_size doesn't match number of frames".

Definition _do_initialize (fs : gmap string (list byte)) : method unit :=
  do s <- self;
  do header <- lift (_read_header fs (_path s) HEADER_FIELDS);
  assign (set_header (Some header));;
  do image_offset <- lift (_get_image_offset header);
  assign (set_image_offset (Some image_offset));;
  do version <- lift (header_int header "version");
  assign (set_timestamp_micro (Some (5 <=? version)%Z));;
  do bit_depth <- lift (header_int header "bit_depth");
  do dtype <-
    match np_dtype_uint bit_depth with
    | Raise TypeError =>
        raise (DataSetException
                 ("unsupported bit depth: " +:+ pretty bit_depth))
    | r => lift r
    end;
  do width <- lift (header_int header "width");
  do height <- lift (header_int header "height");
  let frame_size_bytes := (width * height * itemsize dtype)%Z in
  do true_image_size <- lift (header_int header "true_image_size");
  assign (set_footer_size (Some (true_image_size - frame_size_bytes)%Z));;
  do filesize <- lift (os_stat_st_size fs (_path s));
  assign (set_filesize (Some filesize));;
  do image_count <-
    lift (count_frames filesize image_offset true_image_size);
  assign (set_image_count (Some image_count));;
  if bool_decide (image_count ≠ np_prod (_scan_size s)) then
    raise (DataSetException scan_size_mismatch)
  else
    let shape := mk_Shape (_scan_size s ++ [height; width]) 2 in
    assign (set_meta (Some (mk_DataSetMeta shape dtype dtype header)));;
    _maybe_load_dark_gain fs.

(** [initialize]: the executor runs [_do_initialize]. *)
Definition initialize (fs : gmap string (list byte)) : method unit :=
  _do_initialize fs.

(** [self._meta.<attr>]: [None] has no attributes. *)
Definition meta_attr {A} (attr : string) (get : DataSetMeta → A)
    (s : SEQDataSet) : result A :=
  match _meta s with
  | Some m => Ok (get m)
  | None => Raise (AttributeError attr)
  end.

(** The [dtype] and [shape] properties. *)
Definition dtype_of (s : SEQDataSet) : result dtype :=
  meta_attr "raw_dtype" meta_raw_dtype s.
Definition shape (s : SEQDataSet) : result Shape :=
  meta_attr "shape" meta_shape s.

(** The value [detect_params] returns: [False], or the parameters
    [path] and [scan_size]. *)
Inductive detected : Type :=
| DetectFalse
| DetectParams (path : string) (scan_size : string).

(** The [try] block of [detect_params]. *)
Definition detect_params_try (fs : gmap string (list byte)) (path : string)
  : result detected :=
  header ← _read_header fs path HEADER_FIELDS;
  magic ← header_int header "magic";
  if bool_decide (magic ≠ 0xFEED%Z) then Ok DetectFalse
  else
    image_offset ← _get_image_offset header;
    filesize ← os_stat_st_size fs path;
    true_image_size ← header_int header "true_image_size";
    image_count ← count_frames filesize image_offset true_image_size;
    Ok (DetectParams path (pretty image_count)).

(** [except (OSError, UnicodeDecodeError): return False] *)
Definition detect_params (fs : gmap string (list byte)) (path : string)
  : result detected :=
  match detect_params_try fs path with
  | Raise OSError | Raise UnicodeDecodeError => Ok DetectFalse
  | r => r
  end.

Definition _get_fileset (s : SEQDataSet) : result SEQFileSet :=
  native_dtype ← meta_attr "raw_dtype" meta_raw_dtype s;
  sig_shape ← shape_sig <$> meta_attr "shape" meta_shape s;
  Ok (mk_SEQFileSet
        [ mk_LocalFile (_path s) 0 (_image_count s) native_dtype sig_shape
            (_footer_size s) 0 (_image_offset s) ]
        (_footer_size s)).

Definition unrecognized_format : string :=
  "The format of this .seq file is unrecognized".
Definition only_uncompressed : string :=
  "Only uncompressed images are supported in .seq files".
Definition non_monochrome : string :=
  "Non-monochrome images are not supported".

Definition check_valid (s : SEQDataSet) : result unit :=
  match _header s with
  | None => Raise TypeError
  | Some header =>
      magic ← header_int header "magic";
      if bool_decide (magic ≠ 0xFEED%Z) then
        Raise (DataSetException unrecognized_format)
      else
        compression_format ← header_int header "compression_format";
        if bool_decide (compression_format ≠ 0%Z) then
          Raise (DataSetException only_uncompressed)
        else
          image_format ← header_int header "image_format";
          if bool_decide (image_format ≠ 100%Z) then
            Raise (DataSetException non_monochrome)
          else Ok tt
  end.

(** [max(self._cores, self._filesize // (512*1024*1024))] *)
Definition _get_num_partitions (s : SEQDataSet) : result Z :=
  match _filesize s with
  | Some filesize => Ok (Z.max (_cores s) (filesize / (512 * 1024 * 1024)))
  | None => Raise TypeError
  end.

Record BasePartition : Type := mk_BasePartition {
  part_meta : option DataSetMeta;
  part_fileset : SEQFileSet;
  partition_slice : Slice;
  start_frame : Z;
  num_frames : Z
}.

(** The generator [get_partitions], run to its end. *)
Definition get_partitions (s : SEQDataSet) : result (list BasePartition) :=
  shape ← shape s;
  num_partitions ← _get_num_partitions s;
  let slices := make_slices shape num_partitions in
  fileset ← _get_fileset s;
  Ok ((λ '(part_slice, start, stop),
         mk_BasePartition (_meta s) (get_for_range fileset start stop)
           part_slice start (stop - start)%Z) <$> slices).

End SEQ.

(** ** The frame-summing job ([libertem/job/sum.py]) *)

(** [np.result_type] on two data types, and the [same_kind] casting rule
    that in-place operations apply to their output. *)
Definition kind_rank (dt : dtype) : nat :=
  match dt with
  | DBool => 0
  | DUInt _ => 1
  | DInt _ => 2
  | DFloat _ => 3
  | DComplex _ => 4
  end.

Definition can_cast_same_kind (from to : dtype) : bool :=
  bool_decide (kind_rank from ≤ kind_rank to).

(** The narrowest float that holds every integer of the given width. *)
Definition float_bits_for_int (bits : Z) : Z :=
  (if bits <=? 8 then 16 else if bits <=? 16 then 32 else 64)%Z.

Definition result_type (a b : dtype) : dtype :=
  match a, b with
  | DBool, d | d, DBool => d
  | DUInt x, DUInt y => DUInt (Z.max x y)
  | DInt x, DInt y => DInt (Z.max x y)
  | DUInt u, DInt i | DInt i, DUInt u =>
      if (u <? i)%Z then DInt i
      else if (u <? 64)%Z then DInt (2 * u) else DFloat 64
  | DFloat x, DFloat y => DFloat (Z.max x y)
  | DFloat f, DUInt i | DUInt i, DFloat f
  | DFloat f, DInt i | DInt i, DFloat f =>
      DFloat (Z.max f (float_bits_for_int i))
  | DComplex x, DComplex y => DComplex (Z.max x y)
  | DComplex c, DFloat f | DFloat f, DComplex c => DComplex (Z.max c (2 * f))
  | DComplex c, DUInt i | DUInt i, DComplex c
  | DComplex c, DInt i | DInt i, DComplex c =>
      DComplex (Z.max c (2 * float_bits_for_int i))
  end.

(** The data type in which [ndarray.sum] accumulates and returns. *)
Definition sum_dtype (dt : dtype) : dtype :=
  match dt with
  | DBool => DInt 64
  | DUInt _ => DUInt 64
  | DInt _ => DInt 64
  | d => d
  end.

Section SumFrames.
(** Array elements, with the conversion of an element between two data
    types, the addition of two elements of one data type, and zero. *)
Context {scalar : Type}.
Variable zero : scalar.
Variable convert : dtype → dtype → scalar → scalar.
Variable add : dtype → scalar → scalar → scalar.

(** An array over the signal shape, flattened. *)
Record sig_array : Type := mk_sig_array {
  arr_dtype : dtype;
  arr_data : list scalar
}.

(** A tile: its data, one row per navigation position, each row the
    flattened signal region of the tile; and [tile_slice], as the
    positions of that region in the flattened signal shape. *)
Record DataTile : Type := mk_DataTile {
  tile_dtype : dtype;
  tile_data : list (list scalar);
  tile_sig_index : list nat
}.

Definition np_zeros (size : nat) (dt : dtype) : sig_array :=
  mk_sig_array dt (replicate size zero).

(** [data.astype(dt)] *)
Definition astype (dt : dtype) (tile : DataTile) : DataTile :=
  mk_DataTile dt
    ((λ row : list scalar, convert (tile_dtype tile) dt <$> row)
       <$> tile_data tile)
    (tile_sig_index tile).

(** [data.sum(axis=<the navigation axes>)] *)
Definition tile_sum (tile : DataTile) : sig_array :=
  let dt := sum_dtype (tile_dtype tile) in
  mk_sig_array dt
    (foldl (λ (acc row : list scalar),
              zip_with (add dt) acc (convert (tile_dtype tile) dt <$> row))
       (replicate (length (tile_sig_index tile)) (convert float32 dt zero))
       (tile_data tile)).

(** [target[index] += source]: the elements are added in the common data
    type and stored in the target's, which must be reachable by a
    [same_kind] cast. *)
Definition iadd (target : sig_array) (index : list nat) (source : sig_array)
  : result sig_array :=
  let loop := result_type (arr_dtype target) (arr_dtype source) in
  if can_cast_same_kind loop (arr_dtype target) then
    Ok (mk_sig_array (arr_dtype target)
          (foldl (λ (acc : list scalar) '(i, x),
                    match acc !! i with
                    | Some p =>
                        <[i := convert loop (arr_dtype target)
                                 (add loop
                                    (convert (arr_dtype target) loop p)
                                    (convert (arr_dtype source) loop x))]> acc
                    | None => acc
                    end)
             (arr_data target) (zip index (arr_data source))))
  else Raise UFuncTypeError.

Record SumResultTile : Type := mk_SumResultTile { data : sig_array }.


(** One turn of the loop of [SumFramesTask.__call__]. *)
Definition sum_step (part : sig_array) (data_tile : DataTile)
  : result sig_array :=
  let data :=
    if bool_decide (kind (tile_dtype data_tile) ∈ ["u"; "i"])
    then astype float32 data_tile else data_tile in
  let res := tile_sum data in
  iadd part (tile_sig_index data_tile) res.

Fixpoint sum_loop (part : sig_array) (tiles : list DataTile)
  : result sig_array :=
  match tiles with
  | [] => Ok part
  | data_tile :: tiles' =>
      part' ← sum_step part data_tile;
      sum_loop part' tiles'
  end.

(** [SumFramesTask.__call__], for a partition with the given signal size
    and tiles. *)
Definition SumFramesTask_call (sig_size : nat) (tiles : list DataTile)
  : result (list SumResultTile) :=
  let part := np_zeros sig_size float32 in
  part ← sum_loop part tiles;
  Ok [ mk_SumResultTile part ].

(** [SumResultTile.reduce_into_result] *)
Definition reduce_into_result (t : SumResultTile) (res : sig_array)
  : result sig_array :=
  iadd res (seq 0 (length (arr_data res))) (data t).

(** Modelled from the spec: the reduction that the job runner of
    [libertem.job.base] performs, merging the result tiles into the final
    accumulator one after the other, in the order in which they arrive. *)
Fixpoint merge_all (tiles : list SumResultTile) (res : sig_array)
  : result sig_array :=
  match tiles with
  | [] => Ok res
  | t :: tiles' =>
      res' ← reduce_into_result t res;
      merge_all tiles' res'
  end.

End SumFrames.

(** ** The job ([SumFramesJob]) *)

Section SumFramesJob.
(** A job holds its dataset; the datasets here are SEQ datasets. *)
Context {ndarray : Type}.
Variable get_for_range : SEQFileSet → Z → Z → SEQFileSet.

Record SumFramesJob : Type := mk_SumFramesJob {
  job_dataset : @SEQDataSet ndarray
}.

Record SumFramesTask : Type := mk_SumFramesTask {
  task_partition : BasePartition
}.

(** The generator [get_tasks], run to its end. *)
Definition get_tasks (job : SumFramesJob) : result (list SumFramesTask) :=
  (λ parts : list BasePartition, mk_SumFramesTask <$> parts)
  <$> get_partitions get_for_range (job_dataset job).

Definition get_result_shape (job : SumFramesJob) : result (list Z) :=
  shape_sig <$> shape (job_dataset job).

(** [self.partition.meta.shape.sig], the shape of the accumulator that
    [SumFramesTask.__call__] allocates. *)
Definition task_sig_shape (task : SumFramesTask) : result (list Z) :=
  match part_meta (task_partition task) with
  | Some m => Ok (shape_sig (meta_shape m))
  | None => Raise (AttributeError "shape")
  end.

End SumFramesJob.

(** ** Sample files *)

(** [struct.pack] of an integer on [n] bytes, little endian. *)
Fixpoint pack_le (n : nat) (v : Z) : list byte :=
  match n with
  | O => []
  | S n' =>
      default x00 (Byte.of_N (Z.to_N (v mod 256))) :: pack_le n' (v / 256)
  end.

(** A text field of [n] bytes holding the UTF-16 text [text], padded
    with null bytes. *)
Definition pack_text (n : nat) (text : list byte) : list byte :=
  take n (text ++ replicate n x00).

(** The bytes of a header with the given values; the name is "n", the
    description "d", the remaining fields are zero. *)
Definition sample_header
    (magic version width height bit_depth image_format true_image_size
     compression_format : Z) : list byte :=
  pack_le 4 magic ++ pack_text 24 [x6e; x00] ++ pack_le 4 version
  ++ pack_le 4 1024 ++ pack_text 512 [x64; x00]
  ++ pack_le 4 width ++ pack_le 4 height ++ pack_le 4 bit_depth
  ++ pack_le 4 bit_depth ++ pack_le 4 (width * height * (bit_depth / 8))
  ++ pack_le 4 image_format ++ pack_le 4 0 ++ pack_le 4 0
  ++ pack_le 4 true_image_size ++ pack_le 8 0 ++ pack_le 4 0
  ++ pack_le 4 0 ++ pack_le 4 0 ++ pack_le 4 0 ++ pack_le 4 0
  ++ pack_le 4 0 ++ pack_le 4 0 ++ pack_le 4 compression_format
  ++ pack_le 4 0 ++ pack_le 2 0 ++ pack_le 2 0.

(** A file of [size] bytes that starts with the given header. *)
Definition sample_file (header : list byte) (size : nat) : list byte :=
  take size (header ++ replicate size x00).

(** A version 5 file of ten 4x4 frames of 8-bit pixels without footer. *)
Definition ten_frames : list byte :=
  sample_file (sample_header 0xFEED 5 4 4 8 100 16 0)
    (Z.to_nat (8192 + 10 * 16)).

(** A file system holding the ten-frame file, without correction files,
    and a dataset over it with scan size (2, 5) on four cores.  No MRC
    file is decoded in these runs. *)
Definition sample_fs : gmap string (list byte) := {[ "a.seq" := ten_frames ]}.

Definition no_mrc : list byte → option unit := λ _, None.

Definition sample_dataset : @SEQDataSet unit := __init__ "a.seq" [2; 5]%Z 4.

Definition sample_run : result unit * @SEQDataSet unit :=
  _do_initialize no_mrc id sample_fs sample_dataset.

Definition sample_header_map : gmap string value :=
  default ∅ (_header sample_run.2).


(** A file of 700 bytes, shorter than its image offset of 1024. *)
Definition truncated_fs : gmap string (list byte) :=
  {[ "a.seq" := sample_file (sample_header 0xFEED 0 4 4 8 100 16 0)
                  (Z.to_nat 700) ]}.

(** A file of 12-bit pixels. *)
Definition twelve_bit_fs : gmap string (list byte) :=
  {[ "a.seq" := sample_file (sample_header 0xFEED 5 4 4 12 100 16 0)
                  (Z.to_nat (8192 + 10 * 16)) ]}.



(** The ten-frame file with an empty name: the 24 bytes of the field,
    at offset 4, are null. *)
Definition unnamed_fs : gmap string (list byte) :=
  {[ "a.seq" := take 4 ten_frames ++ replicate 24 x00 ++ drop 28 ten_frames ]}.

(** ** Vocabulary of the statements *)

(** A double null byte starts at position [i] of [s]. *)
Definition double_null_at (s : list byte) (i : nat) : Prop :=
  s !! i = Some x00 ∧ s !! S i = Some x00.

(** What the loop stores for the field [name] of format [fmt] that starts
    at position [pos]. *)
Definition field_value (header_bytes : list byte) (pos : nat) (name : string)
    (fmt : struct_fmt) : result value :=
  '(val, _) ← _unpack_header_field (drop pos header_bytes) fmt;
  if bool_decide (name ∈ str_fields) then decode_value val else Ok val.

(** The integer that a decoded header holds under [key]. *)
Definition hdr (header : gmap string value) (key : string) : Z :=
  match header !! key with
  | Some (VInt n) => n
  | _ => 0%Z
  end.

(** The image offset that a decoded header calls for. *)
Definition image_offset_of (header : gmap string value) : Z :=
  if (5 <=? hdr header "version")%Z then 8192%Z else 1024%Z.

(** The attributes assigned before the scan size is compared. *)
Definition geometry_assigned {ndarray : Type} (s : @SEQDataSet ndarray)
    (header : gmap string value) (dt : dtype) (filesize count : Z)
  : SEQDataSet :=
  set_image_count (Some count)
    (set_filesize (Some filesize)
       (set_footer_size
          (Some (hdr header "true_image_size"
                 - hdr header "width" * hdr header "height" * itemsize dt)%Z)
          (set_timestamp_micro (Some (5 <=? hdr header "version")%Z)
             (set_image_offset (Some (image_offset_of header))
                (set_header (Some header) s))))).

Section Ranges.
Local Open Scope Z_scope.

(** The frame ranges of a partition plan. *)
Definition frame_ranges (slices : list (Slice * Z * Z)) : list (Z * Z) :=
  (λ '(_, start, stop), (start, stop)) <$> slices.

(** The ranges of [l] follow one another from [a] to [b]: each starts
    where the one before it stops, and none stops before it starts. *)
Fixpoint chain (a : Z) (l : list (Z * Z)) (b : Z) : Prop :=
  match l with
  | [] => a = b
  | (start, stop) :: l' => start = a ∧ start ≤ stop ∧ chain stop l' b
  end.

Definition in_range (f : Z) (r : Z * Z) : bool :=
  (r.1 <=? f) && (f <? r.2).

(** The number of ranges of [l] that hold the frame [f]. *)
Definition cover_count (l : list (Z * Z)) (f : Z) : nat :=
  length (filter (λ r, in_range f r = true) l).


(** The start and stop frame of chunk number [i]. *)
Definition chunk_range (num_frames num_partitions i : Z) : Z * Z :=
  let f_per_part := num_frames / num_partitions in
  (i * f_per_part,
   if i =? num_partitions - 1 then num_frames else (i + 1) * f_per_part).

(** The frames [[start_frame, start_frame + num_frames)] of a partition. *)
Definition partition_range (p : BasePartition) : Z * Z :=
  (start_frame p, start_frame p + num_frames p).


End Ranges.

(** The data type of the array that one turn of the loop adds to the
    accumulator. *)
Definition summed_dtype (dt : dtype) : dtype :=
  match dt with
  | DBool => DInt 64
  | DUInt _ | DInt _ => float32
  | d => d
  end.

(** The tiles that merge into [res] element by element: [float32]
    arrays of its length. *)
Definition mergeable {scalar : Type} (res : @sig_array scalar)
    (t : @SumResultTile scalar) : Prop :=
  arr_dtype (data t) = float32
  ∧ length (arr_data (data t)) = length (arr_data res).

(** The attributes assigned once the header is decoded. *)
Definition header_assigned {ndarray : Type} (s : @SEQDataSet ndarray)
    (header : gmap string value) : SEQDataSet :=
  set_timestamp_micro (Some (5 <=? hdr header "version")%Z)
    (set_image_offset (Some (image_offset_of header))
       (set_header (Some header) s)).

(** The attributes assigned before the frame count is derived. *)
Definition sizes_assigned {ndarray : Type} (s : @SEQDataSet ndarray)
    (header : gmap string value) (dt : dtype) (filesize : Z) : SEQDataSet :=
  set_filesize (Some filesize)
    (set_footer_size
       (Some (hdr header "true_image_size"
              - hdr header "width" * hdr header "height" * itemsize dt)%Z)
       (header_assigned s header)).

(** The message of the error raised for a bit depth that NumPy has no
    unsigned type for. *)
Definition unsupported_bit_depth (bit_depth : Z) : string :=
  "unsupported bit depth: " +:+ pretty bit_depth.

(** A Unicode scalar value: a code point that is not a surrogate. *)
Definition scalar_value (c : Z) : Prop :=
  (0 ≤ c < 0x110000 ∧ ¬ (0xD800 ≤ c ≤ 0xDFFF))%Z.

(** A tile that spans the whole signal of [n] pixels, with data of a type
    that is not complex. *)
Definition full_tile {scalar : Type} (n : nat) (t : @DataTile scalar) : Prop :=
  tile_sig_index t = seq 0 n
  ∧ Forall (λ row, length row = n) (tile_data t)
  ∧ kind (tile_dtype t) ≠ "c".

(** * Properties *)

(** ** Results *)

Lemma result_bind_ok {A B} (m : result A) (f : A → result B) (b : B) :
  m ≫= f = Ok b ↔ ∃ a, m = Ok a ∧ f a = Ok b.
Proof.
  destruct m as [a|e]; cbn.
  - split; [eauto | intros (a' & [= <-] & H); exact H].
  - split; [discriminate | intros (a' & [=] & _)].
Qed.

(** ** Searching a byte string *)

Lemma byte_eqb_true (x y : byte) : Byte.eqb x y = true ↔ x = y.
Proof. split; [apply byte_dec_bl | apply byte_dec_lb]. Qed.

Lemma startswith_end_mark (s : list byte) :
  bytes_startswith s end_mark = true ↔ double_null_at s 0.
Proof.
  unfold double_null_at, end_mark.
  destruct s as [|a [|b s]]; cbn -[Byte.eqb].
  - split; [discriminate | intros [[=] _]].
  - rewrite andb_false_r. split; [discriminate | intros [_ [=]]].
  - rewrite andb_true_r, andb_true_iff, !byte_eqb_true.
    split; [intros [<- <-]; done | intros [[= <-] [= <-]]; done].
Qed.

Lemma bytes_index_end_mark_Some (s : list byte) (i : nat) :
  bytes_index end_mark s = Some i ↔
  double_null_at s i ∧ ∀ j, (j < i)%nat → ¬ double_null_at s j.
Proof.
  revert i. induction s as [|a s IH]; intros i.
  - cbn. split; [discriminate | intros [[[=] _] _]].
  - cbn [bytes_index].
    destruct (bytes_startswith (a :: s) end_mark) eqn:E.
    + apply startswith_end_mark in E. split.
      * intros [= <-]. split; [exact E | intros j Hj; lia].
      * intros [Hi Hmin]. destruct i as [|i]; [done|].
        exfalso. apply (Hmin 0%nat); [lia | exact E].
    + assert (¬ double_null_at (a :: s) 0) as E'.
      { intros H. apply startswith_end_mark in H. congruence. }
      destruct (bytes_index end_mark s) as [k|] eqn:Ek; cbn.
      * destruct (proj1 (IH k) eq_refl) as [Hk Hmin]. split.
        -- intros [= <-]. split; [exact Hk|].
           intros [|j] Hj; [exact E'|]. apply (Hmin j). lia.
        -- intros [Hi Hmin']. destruct i as [|i]; [done|]. f_equal.
           destruct (Nat.lt_trichotomy i k) as [Hlt | [-> | Hgt]]; [|done|].
           ++ exfalso. apply (Hmin i Hlt). exact Hi.
           ++ exfalso. apply (Hmin' (S k)); [lia | exact Hk].
      * split; [discriminate|]. intros [Hi Hmin'].
        destruct i as [|i]; [done|]. exfalso.
        enough (@None nat = Some i) by discriminate.
        apply IH. split; [exact Hi|].
        intros j Hj. apply (Hmin' (S j)). lia.
Qed.

Lemma bytes_index_end_mark_None (s : list byte) :
  bytes_index end_mark s = None ↔ ∀ j, ¬ double_null_at s j.
Proof.
  split.
  - induction s as [|a s IH]; intros Hn j Hj.
    + destruct Hj as [[=] _].
    + cbn [bytes_index] in Hn.
      destruct (bytes_startswith (a :: s) end_mark) eqn:E; [done|].
      destruct (bytes_index end_mark s) as [k|]; [done|].
      destruct j as [|j]; [|exact (IH eq_refl j Hj)].
      apply startswith_end_mark in Hj. congruence.
  - intros Hn. destruct (bytes_index end_mark s) as [i|] eqn:E; [|done].
    apply bytes_index_end_mark_Some in E. destruct (Hn i (proj1 E)).
Qed.

(** ** The codec and the text fields *)

Lemma utf16_units_raise (big_endian : bool) (q : list byte) (e : exn) :
  utf16_units big_endian q = Raise e → e = UnicodeDecodeError.
Proof.
  remember (length q) as n eqn:Hn. revert q Hn e.
  induction n as [n IH] using lt_wf_ind. intros q Hn e.
  destruct q as [|b0 [|b1 rest]]; cbn [utf16_units].
  - discriminate.
  - intros [= <-]. reflexivity.
  - cbn [length] in Hn.
    destruct (is_high_surrogate _).
    + destruct rest as [|b2 [|b3 rest']]; try (intros [= <-]; reflexivity).
      destruct (is_low_surrogate _); [|intros [= <-]; reflexivity].
      destruct (utf16_units big_endian rest') as [l|e'] eqn:E; cbn;
        [discriminate|].
      intros [= <-]. apply (IH (length rest')) with (q := rest'); [|done..].
      cbn [length] in Hn. lia.
    + destruct (is_low_surrogate _); [intros [= <-]; reflexivity|].
      destruct (utf16_units big_endian rest) as [l|e'] eqn:E; cbn;
        [discriminate|].
      intros [= <-]. apply (IH (length rest)) with (q := rest); [lia|done..].
Qed.

Lemma utf16_decode_raise (q : list byte) (e : exn) :
  utf16_decode q = Raise e → e = UnicodeDecodeError.
Proof.
  unfold utf16_decode. destruct q as [|b0 [|b1 rest]];
    try apply utf16_units_raise.
  destruct (_ && _); [apply utf16_units_raise|].
  destruct (_ && _); apply utf16_units_raise.
Qed.

Lemma decode_str_raise (str_in : list byte) (e : exn) :
  _decode_str str_in = Raise e → e = UnicodeDecodeError.
Proof. apply utf16_decode_raise. Qed.

Lemma decode_str_at_mark (str_in : list byte) (i : nat) :
  bytes_index end_mark str_in = Some i →
  _decode_str str_in = utf16_decode (take (S i) str_in).
Proof.
  intros Hi. unfold _decode_str, bytes_contains. rewrite Hi. cbn [default].
  by rewrite Nat.add_1_r.
Qed.

Lemma decode_str_no_mark (str_in : list byte) :
  bytes_index end_mark str_in = None →
  _decode_str str_in = utf16_decode str_in.
Proof.
  intros Hi. unfold _decode_str, bytes_contains. rewrite Hi.
  by rewrite firstn_all.
Qed.

(** ** The decoding loop *)

Lemma unpack_loop_cons header_bytes name fmt fields pos tmp :
  unpack_loop header_bytes ((name, fmt) :: fields) pos tmp =
  val ← field_value header_bytes pos name fmt;
  unpack_loop header_bytes fields (pos + struct_size fmt) (<[name := val]> tmp).
Proof.
  cbn [unpack_loop]. unfold field_value, _unpack_header_field.
  destruct (struct_unpack fmt _) as [v|e]; cbn; [|done].
  destruct (bool_decide _); [|done]. by destruct (decode_value v).
Qed.

Lemma fields_size_cons name fmt fields :
  fields_size ((name, fmt) :: fields)
  = (struct_size fmt + fields_size fields)%nat.
Proof. reflexivity. Qed.

(** Fields that the rest of the loop does not name keep their value. *)
Lemma unpack_loop_frame header_bytes fields pos tmp h (name : string) :
  unpack_loop header_bytes fields pos tmp = Ok h →
  name ∉ fields.*1 →
  h !! name = tmp !! name.
Proof.
  revert pos tmp. induction fields as [|[n f] fields IH]; intros pos tmp.
  - intros [= <-] _. reflexivity.
  - rewrite unpack_loop_cons. intros H Hn.
    apply result_bind_ok in H as (v & _ & H).
    cbn in Hn. apply not_elem_of_cons in Hn as [Hne Hn].
    rewrite (IH _ _ H Hn). by rewrite lookup_insert_ne.
Qed.

(** A decoded header holds, for a field that is declared once, the value
    read at the field's offset. *)
Lemma unpack_loop_field header_bytes pre name fmt post pos tmp h :
  unpack_loop header_bytes (pre ++ (name, fmt) :: post) pos tmp = Ok h →
  name ∉ post.*1 →
  ∃ v, field_value header_bytes (pos + fields_size pre) name fmt = Ok v
       ∧ h !! name = Some v.
Proof.
  revert pos tmp. induction pre as [|[n f] pre IH]; intros pos tmp H Hn.
  - cbn [app] in H. rewrite unpack_loop_cons in H.
    apply result_bind_ok in H as (v & Hv & H).
    exists v. split.
    + by rewrite Nat.add_0_r.
    + rewrite (unpack_loop_frame _ _ _ _ _ _ H Hn). apply lookup_insert_eq.
  - cbn [app] in H. rewrite unpack_loop_cons in H.
    apply result_bind_ok in H as (v & _ & H).
    destruct (IH _ _ H Hn) as (v' & Hv' & Hl). exists v'. split; [|exact Hl].
    rewrite fields_size_cons.
    by replace (pos + (struct_size f + fields_size pre))%nat
      with (pos + struct_size f + fields_size pre)%nat by lia.
Qed.

(** With enough bytes for every field, and text fields declared as byte
    blocks, the loop can only fail in the codec. *)
Lemma unpack_loop_raise header_bytes fields pos tmp e :
  (pos + fields_size fields ≤ length header_bytes)%nat →
  Forall (λ nf, nf.1 ∈ str_fields → ∃ n, nf.2 = Fmts n) fields →
  unpack_loop header_bytes fields pos tmp = Raise e →
  e = UnicodeDecodeError.
Proof.
  revert pos tmp. induction fields as [|[n f] fields IH]; intros pos tmp.
  - discriminate.
  - rewrite fields_size_cons. intros Hlen Hstr.
    apply Forall_cons in Hstr as [Hs Hstr]. cbn [unpack_loop].
    unfold _unpack_header_field, struct_unpack.
    assert (length (take (struct_size f) (drop pos header_bytes))
            = struct_size f) as Hl
      by (rewrite length_take, length_drop; lia).
    rewrite (bool_decide_eq_true_2 _ Hl).
    cbn. destruct (bool_decide (n ∈ str_fields)) eqn:En.
    + apply bool_decide_eq_true in En. cbn [fst snd] in Hs.
      destruct (Hs En) as (k & ->).
      cbn. destruct (_decode_str _) as [t|e'] eqn:Ed; cbn.
      * apply IH; [cbn in *; lia | exact Hstr].
      * intros [= <-]. exact (decode_str_raise _ _ Ed).
    + cbn. apply IH; [lia | exact Hstr].
Qed.

(** A successful loop has read every field inside the byte string. *)
Lemma unpack_loop_ok_length header_bytes fields pos tmp h :
  unpack_loop header_bytes fields pos tmp = Ok h →
  (pos ≤ length header_bytes)%nat →
  (pos + fields_size fields ≤ length header_bytes)%nat.
Proof.
  revert pos tmp. induction fields as [|[n f] fields IH]; intros pos tmp.
  - cbn. lia.
  - rewrite fields_size_cons. cbn [unpack_loop].
    unfold _unpack_header_field, struct_unpack.
    destruct (bool_decide (length _ = _)) eqn:El; [|discriminate].
    apply bool_decide_eq_true in El.
    rewrite length_take, length_drop in El.
    cbn [mbind result_bind]. intros H Hpos.
    apply result_bind_ok in H as (v & _ & H).
    specialize (IH _ _ H). lia.
Qed.

(** With text fields declared as byte blocks, the loop fails on a field
    that is cut short or in the codec. *)
Lemma unpack_loop_raise_any header_bytes fields pos tmp e :
  Forall (λ nf, nf.1 ∈ str_fields → ∃ n, nf.2 = Fmts n) fields →
  unpack_loop header_bytes fields pos tmp = Raise e →
  e = StructError ∨ e = UnicodeDecodeError.
Proof.
  revert pos tmp. induction fields as [|[n f] fields IH]; intros pos tmp.
  - discriminate.
  - intros Hstr. apply Forall_cons in Hstr as [Hs Hstr]. cbn [unpack_loop].
    unfold _unpack_header_field, struct_unpack.
    destruct (bool_decide (length _ = _)); [|intros [= <-]; by left].
    cbn [mbind result_bind].
    destruct (bool_decide (n ∈ str_fields)) eqn:En.
    + apply bool_decide_eq_true in En. cbn [fst snd] in Hs.
      destruct (Hs En) as (k & ->). cbn [decode_value].
      destruct (_decode_str _) as [t|e'] eqn:Ed; cbn.
      * apply IH, Hstr.
      * intros [= <-]. right. exact (decode_str_raise _ _ Ed).
    + cbn [mbind result_bind]. apply IH, Hstr.
Qed.

(** ** Decoded headers *)

Lemma unpack_header_field header_bytes h pre name fmt post :
  HEADER_FIELDS = pre ++ (name, fmt) :: post →
  name ∉ post.*1 →
  _unpack_header header_bytes HEADER_FIELDS = Ok h →
  ∃ v, field_value header_bytes (fields_size pre) name fmt = Ok v
       ∧ h !! name = Some v.
Proof.
  intros -> Hn H. exact (unpack_loop_field _ _ _ _ _ _ _ _ H Hn).
Qed.

Lemma field_value_int header_bytes pos name fmt v :
  name ∉ str_fields →
  fmt = FmtL ∨ fmt = Fmtl ∨ fmt = FmtH →
  field_value header_bytes pos name fmt = Ok v →
  ∃ n, v = VInt n.
Proof.
  intros Hn Hf. unfold field_value, _unpack_header_field, struct_unpack.
  rewrite (bool_decide_eq_false_2 _ Hn).
  destruct (bool_decide (length _ = _)); cbn; [|discriminate].
  destruct Hf as [-> | [-> | ->]]; intros [= <-]; eauto.
Qed.

Lemma field_value_text header_bytes pos name n v :
  name ∈ str_fields →
  field_value header_bytes pos name (Fmts n) = Ok v →
  ∃ t, _decode_str (take n (drop pos header_bytes)) = Ok t ∧ v = VStr t.
Proof.
  intros Hn. unfold field_value, _unpack_header_field, struct_unpack.
  rewrite (bool_decide_eq_true_2 _ Hn).
  destruct (bool_decide (length _ = _)); cbn; [|discriminate].
  destruct (_decode_str _) as [t|e]; cbn; [|discriminate].
  intros [= <-]. eauto.
Qed.

(** Splits [HEADER_FIELDS] around its field number [i] and applies
    [unpack_header_field] to the decoding hypothesis [H]. *)
Ltac header_field H i :=
  let pre := eval cbv in (take i HEADER_FIELDS) in
  let post := eval cbv in (drop (S i) HEADER_FIELDS) in
  lazymatch eval cbv in (HEADER_FIELDS !! i) with
  | Some (?name, ?fmt) =>
      let Hn := fresh "Hn" in
      assert (name ∉ post.*1) as Hn
        by (apply (bool_decide_unpack _); vm_compute; exact I);
      destruct (unpack_header_field _ _ pre name fmt post eq_refl Hn H)
        as (? & ? & ?);
      clear Hn
  end.

Ltac header_int_field H i :=
  header_field H i;
  match goal with
  | Hv : field_value _ _ ?name _ = Ok ?v, Hl : _ !! ?name = Some ?v |- _ =>
      let n := fresh "n" in
      apply field_value_int in Hv as [n ->];
      [ unfold header_int, hdr; rewrite Hl; try reflexivity
      | apply (bool_decide_unpack _); vm_compute; exact I
      | unfold DWORD, LONG, USHORT; auto ]
  end.

(** The integer fields that the dataset reads are present in every
    decoded header. *)
Lemma decoded_header_ints header_bytes h :
  _unpack_header header_bytes HEADER_FIELDS = Ok h →
  Forall (λ key, header_int h key = Ok (hdr h key))
    ["magic"; "version"; "width"; "height"; "bit_depth"; "image_format";
     "true_image_size"; "compression_format"].
Proof.
  intros H. repeat apply Forall_cons_2; [..|apply Forall_nil_2].
  - header_int_field H 0%nat.
  - header_int_field H 2%nat.
  - header_int_field H 5%nat.
  - header_int_field H 6%nat.
  - header_int_field H 7%nat.
  - header_int_field H 10%nat.
  - header_int_field H 13%nat.
  - header_int_field H 22%nat.
Qed.

Lemma decoded_header_int header_bytes h key :
  _unpack_header header_bytes HEADER_FIELDS = Ok h →
  key ∈ ["magic"; "version"; "width"; "height"; "bit_depth"; "image_format";
         "true_image_size"; "compression_format"] →
  header_int h key = Ok (hdr h key).
Proof.
  intros H Hk. pose proof (decoded_header_ints _ _ H) as Hall.
  rewrite Forall_forall in Hall. apply Hall, Hk.
Qed.

Lemma header_fields_text :
  Forall (λ nf : string * struct_fmt, nf.1 ∈ str_fields → ∃ n, nf.2 = Fmts n)
    HEADER_FIELDS.
Proof.
  unfold HEADER_FIELDS.
  repeat (apply Forall_cons_2;
          [cbn [fst snd]; intros Hin;
           first [ by exists 24%nat | by exists 512%nat
                 | exfalso; revert Hin;
                   apply (bool_decide_unpack (_ ∉ _)); vm_compute; exact I]|]).
  apply Forall_nil_2.
Qed.

(** A header of [HEADER_SIZE] bytes or more either decodes or fails in
    the codec, on a text field. *)
Lemma unpack_header_raise header_bytes e :
  (HEADER_SIZE ≤ length header_bytes)%nat →
  _unpack_header header_bytes HEADER_FIELDS = Raise e →
  e = UnicodeDecodeError.
Proof.
  intros Hlen. apply unpack_loop_raise; [exact Hlen|].
  exact header_fields_text.
Qed.

(** What [_decode_str] keeps of a text field: the bytes up to and
    including the first byte of the first double null byte, so that what
    it keeps holds no double null byte, or the whole field when it holds
    no double null byte; it decodes what it kept as UTF-16, and the only
    error it raises is [UnicodeDecodeError].  The fields [name] (24 bytes
    at offset 4) and [description] (512 bytes at offset 36) of a decoded
    header are the texts that [_decode_str] returns for these bytes, and a
    header of full length with a text field that does not decode yields no
    header but the codec's [UnicodeDecodeError]. *)
Lemma decode_str_text_fields (str_in header_bytes : list byte) :
  (∀ i, double_null_at str_in i →
        (∀ j, (j < i)%nat → ¬ double_null_at str_in j) →
        _decode_str str_in = utf16_decode (take (S i) str_in)
        ∧ ∀ j, ¬ double_null_at (take (S i) str_in) j)
  ∧ ((∀ j, ¬ double_null_at str_in j) →
     _decode_str str_in = utf16_decode str_in)
  ∧ (∀ e, _decode_str str_in = Raise e → e = UnicodeDecodeError)
  ∧ (∀ h, _unpack_header header_bytes HEADER_FIELDS = Ok h →
          ∃ name description,
            _decode_str (take 24 (drop 4 header_bytes)) = Ok name
            ∧ _decode_str (take 512 (drop 36 header_bytes)) = Ok description
            ∧ h !! "name" = Some (VStr name)
            ∧ h !! "description" = Some (VStr description))
  ∧ ((HEADER_SIZE ≤ length header_bytes)%nat →
     is_ok (_decode_str (take 24 (drop 4 header_bytes))) = false
     ∨ is_ok (_decode_str (take 512 (drop 36 header_bytes))) = false →
     _unpack_header header_bytes HEADER_FIELDS = Raise UnicodeDecodeError).
Proof.
  assert (∀ h, _unpack_header header_bytes HEADER_FIELDS = Ok h →
          ∃ name description,
            _decode_str (take 24 (drop 4 header_bytes)) = Ok name
            ∧ _decode_str (take 512 (drop 36 header_bytes)) = Ok description
            ∧ h !! "name" = Some (VStr name)
            ∧ h !! "description" = Some (VStr description)) as Hfields.
  { intros h H.
    header_field H 1%nat. header_field H 4%nat.
    repeat match goal with
    | Hv : field_value _ _ _ (Fmts _) = Ok _ |- _ =>
        apply field_value_text in Hv as (? & ? & ->);
        [|apply (bool_decide_unpack _); vm_compute; exact I]
    end.
    eauto 10. }
  split; [|split; [|split; [|split]]].
  - intros i Hi Hmin. split.
    + apply decode_str_at_mark. by apply bytes_index_end_mark_Some.
    + intros j [Hj0 Hj1].
      apply lookup_take_Some in Hj0 as [Hj0 _].
      apply lookup_take_Some in Hj1 as [Hj1 Hlt].
      apply (Hmin j); [lia | by split].
  - intros Hno. apply decode_str_no_mark.
    by apply bytes_index_end_mark_None.
  - apply decode_str_raise.
  - exact Hfields.
  - intros Hlen Hbad.
    destruct (_unpack_header header_bytes HEADER_FIELDS) as [h|e] eqn:E.
    + destruct (Hfields h eq_refl) as (n & d & Hn & Hd & _).
      rewrite Hn, Hd in Hbad. by destruct Hbad.
    + by rewrite (unpack_header_raise _ _ Hlen E).
Qed.

(** The codec reads whole code units. *)
Lemma utf16_units_even be (q : list byte) (t : list Z) :
  utf16_units be q = Ok t → Nat.Even (length q).
Proof.
  remember (length q) as n eqn:Hn. revert q t Hn.
  induction n as [n IH] using lt_wf_ind. intros q t Hn.
  destruct q as [|b0 [|b1 rest]]; cbn [utf16_units].
  - intros _. subst n. by exists 0%nat.
  - discriminate.
  - destruct (is_high_surrogate (code_unit be b0 b1)).
    + destruct rest as [|b2 [|b3 rest']]; [discriminate..|].
      destruct (is_low_surrogate (code_unit be b2 b3)); [|discriminate].
      destruct (utf16_units be rest') as [t'|] eqn:E; [|discriminate].
      intros _.
      destruct (IH (length rest') ltac:(subst n; cbn; lia) rest' t' eq_refl E)
        as [k Hk].
      subst n. cbn [length]. exists (S (S k)). lia.
    + destruct (is_low_surrogate (code_unit be b0 b1)); [discriminate|].
      destruct (utf16_units be rest) as [t'|] eqn:E; [|discriminate].
      intros _.
      destruct (IH (length rest) ltac:(subst n; cbn; lia) rest t' eq_refl E)
        as [k Hk].
      subst n. cbn [length]. exists (S k). lia.
Qed.

Lemma utf16_decode_even (q : list byte) (t : list Z) :
  utf16_decode q = Ok t → Nat.Even (length q).
Proof.
  unfold utf16_decode. destruct q as [|b0 [|b1 rest]];
    try apply utf16_units_even.
  destruct (_ && _).
  { intros H. apply utf16_units_even in H as [k Hk]. exists (S k).
    cbn [length]. lia. }
  destruct (_ && _); [|apply utf16_units_even].
  intros H. apply utf16_units_even in H as [k Hk]. exists (S k).
  cbn [length]. lia.
Qed.

(** A double null byte that starts at an even offset leaves an odd
    number of bytes to decode. *)
Lemma decode_str_even_mark (str_in : list byte) (i : nat) :
  double_null_at str_in i →
  (∀ j, (j < i)%nat → ¬ double_null_at str_in j) →
  Nat.Even i →
  _decode_str str_in = Raise UnicodeDecodeError.
Proof.
  intros Hi Hmin Heven.
  assert (_decode_str str_in = utf16_decode (take (S i) str_in)) as Hcut.
  { apply decode_str_at_mark. by apply bytes_index_end_mark_Some. }
  destruct (_decode_str str_in) as [t|e] eqn:E.
  - exfalso. symmetry in Hcut. apply utf16_decode_even in Hcut.
    destruct Hi as [_ Hi1]. apply lookup_lt_Some in Hi1.
    rewrite length_take in Hcut.
    replace (S i `min` length str_in)%nat with (S i) in Hcut by lia.
    destruct Heven as [k Hk], Hcut as [k' Hk']. lia.
  - by rewrite (decode_str_raise _ _ E).
Qed.

(** C7: [_decode_str] does not cut a text field at its double null byte
    but one byte further, inside it.  Whenever the first double null byte
    starts at an even offset, that is, where a UTF-16 text ends with a
    null code unit, the bytes kept are odd in number and the decoding
    raises [UnicodeDecodeError] instead of returning the text.  So does an
    empty field of 24 null bytes, whose text before the double null byte
    is the empty text, and a field holding the euro sign, whose text
    before the double null byte decodes to that sign.  Nothing turns the
    error into an error of the format: a file whose name field is empty
    makes [_read_header] and [_do_initialize] raise the codec's
    [UnicodeDecodeError]. *)
Theorem decode_str_cuts_inside_terminator :
  (∀ (str_in : list byte) (i : nat),
     double_null_at str_in i →
     (∀ j, (j < i)%nat → ¬ double_null_at str_in j) →
     Nat.Even i →
     _decode_str str_in = Raise UnicodeDecodeError)
  ∧ (_decode_str (replicate 24 x00) = Raise UnicodeDecodeError
     ∧ utf16_decode (take 0 (replicate 24 x00)) = Ok [])
  ∧ (_decode_str ([xac; x20] ++ replicate 22 x00) = Raise UnicodeDecodeError
     ∧ utf16_decode (take 2 ([xac; x20] ++ replicate 22 x00))
       = Ok [0x20AC]%Z)
  ∧ _read_header unnamed_fs "a.seq" HEADER_FIELDS = Raise UnicodeDecodeError
  ∧ (_do_initialize no_mrc id unnamed_fs sample_dataset).1
    = Raise UnicodeDecodeError.
Proof.
  split; [exact decode_str_even_mark|].
  repeat split; vm_compute; reflexivity.
Qed.

(** ** Validation *)

Section Validation.
Context {ndarray : Type}.

(** C8: [check_valid] tests the magic number, then the compression
    format, then the image format.  A wrong magic number is reported as
    an unrecognized format; with the right magic number, a compression
    format other than 0 is reported as unsupported compression; with
    both right, an image format other than 100 is reported as
    non-monochrome; a header passing the three tests is accepted.  The
    three messages differ from one another. *)
Theorem check_valid_checks (s : @SEQDataSet ndarray)
    (header : gmap string value) (magic compression_format image_format : Z) :
  _header s = Some header →
  header !! "magic" = Some (VInt magic) →
  header !! "compression_format" = Some (VInt compression_format) →
  header !! "image_format" = Some (VInt image_format) →
  (magic ≠ 0xFEED%Z →
   check_valid s = Raise (DataSetException unrecognized_format))
  ∧ (magic = 0xFEED%Z → compression_format ≠ 0%Z →
     check_valid s = Raise (DataSetException only_uncompressed))
  ∧ (magic = 0xFEED%Z → compression_format = 0%Z → image_format ≠ 100%Z →
     check_valid s = Raise (DataSetException non_monochrome))
  ∧ (magic = 0xFEED%Z → compression_format = 0%Z → image_format = 100%Z →
     check_valid s = Ok tt)
  ∧ unrecognized_format ≠ only_uncompressed
  ∧ unrecognized_format ≠ non_monochrome
  ∧ only_uncompressed ≠ non_monochrome.
Proof.
  intros Hh Hm Hc Hi. unfold check_valid, header_int.
  rewrite Hh, Hm, Hc, Hi. cbn.
  repeat split; try discriminate.
  - intros Hne. by rewrite (bool_decide_eq_true_2 _ Hne).
  - intros -> Hne. cbn. by rewrite (bool_decide_eq_true_2 _ Hne).
  - intros -> -> Hne. cbn. by rewrite (bool_decide_eq_true_2 _ Hne).
  - intros -> -> ->. reflexivity.
Qed.

End Validation.

(** ** True division *)

Section TrueDivision.
Local Open Scope Z_scope.

Lemma round_half_even_bounds (n d : Z) :
  0 ≤ n → 0 < d →
  n / d ≤ round_half_even n d ≤ n / d + 1
  ∧ (round_half_even n d = n / d + 1 → d ≤ 2 * (n mod d)).
Proof.
  intros Hn Hd. unfold round_half_even.
  destruct (Z.ltb_spec (2 * (n mod d)) d); [lia|].
  destruct (Z.ltb_spec d (2 * (n mod d))); [lia|].
  destruct (Z.even (n / d)); lia.
Qed.

(** The exponent chosen for [a / b] normalises the quotient. *)
Lemma quotient_exponent_spec (a b : Z) :
  0 < a < 2 ^ 53 → 0 < b < 2 ^ 32 →
  let e := quotient_exponent a b in
  -1074 ≤ e ≤ 0 ∧ 2 ^ 52 * scale_den b e ≤ scale_num a e.
Proof.
  intros Ha Hb.
  assert (0 ≤ Z.log2 a < 53) as Hla.
  { split; [apply Z.log2_nonneg|]. apply Z.log2_lt_pow2; lia. }
  assert (0 ≤ Z.log2 b < 32) as Hlb.
  { split; [apply Z.log2_nonneg|]. apply Z.log2_lt_pow2; lia. }
  pose proof (Z.log2_spec a ltac:(lia)) as Hsa.
  pose proof (Z.log2_spec b ltac:(lia)) as Hsb.
  unfold quotient_exponent. cbv zeta.
  set (e0 := Z.log2 a - Z.log2 b - 52).
  destruct (Z.leb_spec (2 ^ 52 * scale_den b e0) (scale_num a e0)) as [Hle|Hgt].
  - rewrite Z.max_l by lia. split; [lia | exact Hle].
  - rewrite Z.max_l by lia. split; [lia|].
    unfold scale_den, scale_num.
    destruct (Z.ltb_spec (e0 - 1) 0); [|lia].
    replace (- (e0 - 1)) with (Z.log2 b + 1 + (52 - Z.log2 a)) by lia.
    rewrite Z.pow_add_r by lia.
    assert (2 ^ 52 = 2 ^ Z.log2 a * 2 ^ (52 - Z.log2 a)) as E.
    { rewrite <- Z.pow_add_r by lia. f_equal. lia. }
    rewrite E.
    replace (Z.succ (Z.log2 b)) with (Z.log2 b + 1) in Hsb by lia.
    assert (0 < 2 ^ (52 - Z.log2 a)) as Hp by (apply Z.pow_pos_nonneg; lia).
    revert Hsa Hsb Hp Ha Hb. clear.
    generalize (2 ^ Z.log2 a) (2 ^ (Z.log2 b + 1)) (2 ^ (52 - Z.log2 a))
               (2 ^ Z.succ (Z.log2 a)) (2 ^ Z.log2 b).
    intros X Y P X' Y' [HX _] [_ HY] HP Ha Hb.
    transitivity (a * P * b); [|nia].
    apply Z.mul_le_mono_nonneg_r; [lia|]. apply Z.mul_le_mono_nonneg_r; lia.
Qed.

Lemma round_scaled (a b s : Z) :
  0 < a → 0 < b → 0 < s → b < 2 ^ (s + 1) →
  a / b * 2 ^ s ≤ round_half_even (a * 2 ^ s) b < (a / b + 1) * 2 ^ s.
Proof.
  intros Ha Hb Hs Hlt.
  assert (2 ≤ 2 ^ s) as HP.
  { change 2 with (2 ^ 1) at 1. apply Z.pow_le_mono_r; lia. }
  rewrite Z.pow_add_r, Z.pow_1_r in Hlt by lia.
  revert HP Hlt. generalize (2 ^ s). intros P HP Hlt.
  pose proof (Z.div_mod a b ltac:(lia)) as Hab.
  pose proof (Z.mod_pos_bound a b Hb) as Hr0.
  pose proof (Z.div_mod (a * P) b ltac:(lia)) as Hn.
  pose proof (Z.mod_pos_bound (a * P) b Hb) as Hr.
  destruct (round_half_even_bounds (a * P) b ltac:(nia) Hb) as [[Hlo Hhi] Hup].
  revert Hab Hr0 Hn Hr Hlo Hhi Hup.
  generalize (round_half_even (a * P) b) (a / b) (a mod b)
             (a * P / b) ((a * P) mod b).
  intros m k r0 q r Hab Hr0 Hn Hr Hlo Hhi Hup.
  assert (k * P ≤ q) by nia.
  assert (q < (k + 1) * P) by nia.
  split; [lia|].
  destruct (Z.eq_dec m (q + 1)) as [Hm|Hm]; [|lia].
  specialize (Hup Hm).
  destruct (Z.eq_dec q ((k + 1) * P - 1)) as [Hq|Hq]; [|lia].
  exfalso. nia.
Qed.

(** For a dividend below [2 ^ 53] and a divisor below [2 ^ 32], the
    rounded quotient does not overflow and truncates to the quotient of
    the integers. *)
Lemma true_div_magnitude (a b : Z) :
  0 < a < 2 ^ 53 → 0 < b < 2 ^ 32 →
  let e := quotient_exponent a b in
  let m := round_half_even (scale_num a e) (scale_den b e) in
  (2 ^ 1024 <=? m * 2 ^ e) = false
  ∧ py_int (mk_float64 m e) = a / b
  ∧ py_int (mk_float64 (- m) e) = - (a / b).
Proof.
  intros Ha Hb.
  destruct (quotient_exponent_spec a b Ha Hb) as [He Hnorm].
  set (e := quotient_exponent a b) in *. cbv zeta.
  destruct (Z.eq_dec e 0) as [He0|He0].
  - rewrite He0 in *. unfold scale_num, scale_den in *.
    cbn [Z.ltb Z.compare] in *.
    rewrite Z.pow_0_r, !Z.mul_1_r in *.
    assert (b = 1) as -> by lia.
    assert (round_half_even a 1 = a) as ->.
    { unfold round_half_even. rewrite Z.mod_1_r, Z.div_1_r. reflexivity. }
    unfold py_int. cbn [f_mant f_exp Z.leb Z.compare].
    rewrite Z.div_1_r, Z.pow_0_r, !Z.mul_1_r.
    split; [|done]. apply Z.leb_gt. lia.
  - unfold scale_num, scale_den in *.
    destruct (Z.ltb_spec e 0) as [Hneg|]; [|lia].
    assert (0 < 2 ^ (- e)) as HP by (apply Z.pow_pos_nonneg; lia).
    assert (b < 2 ^ (- e + 1)) as Hb2.
    { rewrite Z.pow_add_r, Z.pow_1_r by lia. nia. }
    pose proof (round_scaled a b (- e) ltac:(lia) ltac:(lia) ltac:(lia) Hb2)
      as [Hlo Hhi].
    assert (0 ≤ a / b) by (apply Z.div_pos; lia).
    assert (round_half_even (a * 2 ^ (- e)) b / 2 ^ (- e) = a / b) as Hq.
    { symmetry.
      apply Z.div_unique
        with (r := round_half_even (a * 2 ^ (- e)) b - a / b * 2 ^ (- e));
        lia. }
    rewrite (Z.pow_neg_r 2 e Hneg), Z.mul_0_r.
    unfold py_int. cbn [f_mant f_exp].
    destruct (Z.leb_spec 0 e); [lia|].
    rewrite Z.quot_opp_l, !Z.quot_div_nonneg by nia.
    rewrite Hq. split; [|done]. by apply Z.leb_gt.
Qed.

(** [int(a / b)] is the quotient of [a] by [b] truncated toward zero. *)
Lemma int_true_div_quot (a b : Z) :
  - 2 ^ 53 < a < 2 ^ 53 → 0 < b < 2 ^ 32 →
  py_int <$> py_true_div a b = Ok (Z.quot a b).
Proof.
  intros Ha Hb. unfold py_true_div.
  destruct (Z.eqb_spec b 0) as [|_]; [lia|].
  destruct (Z.eqb_spec a 0) as [->|Hne].
  { cbn. by rewrite Z.quot_0_l by lia. }
  rewrite (Z.abs_eq b), (Z.sgn_pos b) by lia. rewrite Z.mul_1_r.
  destruct (true_div_magnitude (Z.abs a) b ltac:(lia) Hb) as (-> & Hp & Hn).
  destruct (Z.lt_total a 0) as [Hlt|[->|Hgt]]; [|lia|].
  - rewrite Z.sgn_neg by lia.
    match goal with
    | |- context [ -1 * ?x ] => replace (-1 * x) with (- x) by lia
    end.
    cbn [fmap result_fmap].
    rewrite Hn. f_equal. rewrite Z.abs_neq by lia.
    rewrite <- Z.quot_div_nonneg by lia.
    rewrite Z.quot_opp_l by lia. lia.
  - rewrite Z.sgn_pos by lia. rewrite Z.mul_1_l. cbn [fmap result_fmap].
    rewrite Hp. f_equal. rewrite Z.abs_eq by lia.
    by rewrite Z.quot_div_nonneg by lia.
Qed.

End TrueDivision.

(** ** The product of the scan size *)

Section Product.
Local Open Scope Z_scope.

Lemma wrap_int64_mod (n : Z) : wrap_int64 n mod 2 ^ 64 = n mod 2 ^ 64.
Proof.
  unfold wrap_int64, to_signed.
  pose proof (Z.mod_pos_bound n (2 ^ 64) ltac:(lia)).
  destruct (Z.leb_spec (2 ^ (64 - 1)) (n mod 2 ^ 64)).
  - replace (n mod 2 ^ 64 - 2 ^ 64) with (n mod 2 ^ 64 + (-1) * 2 ^ 64)
      by lia.
    by rewrite Z.mod_add, Z.mod_mod by lia.
  - by rewrite Z.mod_mod by lia.
Qed.

Lemma wrap_int64_small (n : Z) : - 2 ^ 63 ≤ n < 2 ^ 63 → wrap_int64 n = n.
Proof.
  intros Hn. unfold wrap_int64, to_signed.
  destruct (Z.lt_ge_cases n 0).
  - replace (n mod 2 ^ 64) with (n + 2 ^ 64).
    + destruct (Z.leb_spec (2 ^ (64 - 1)) (n + 2 ^ 64)); lia.
    + apply Z.mod_unique with (q := -1); lia.
  - rewrite Z.mod_small by lia.
    destruct (Z.leb_spec (2 ^ (64 - 1)) n); lia.
Qed.

Lemma wrap_int64_congr (a b : Z) :
  a mod 2 ^ 64 = b mod 2 ^ 64 → wrap_int64 a = wrap_int64 b.
Proof. unfold wrap_int64. by intros ->. Qed.

(** The wrap-around of every step amounts to one wrap-around of the
    exact product. *)
Lemma np_prod_wrap (l : list Z) : np_prod l = wrap_int64 (list_prod l).
Proof.
  unfold np_prod.
  assert (∀ acc, foldl (λ acc x, wrap_int64 (acc * x)) (wrap_int64 acc) l
                 = wrap_int64 (acc * list_prod l)) as H.
  { induction l as [|x l IH]; intros acc; cbn [foldl list_prod].
    - by rewrite Z.mul_1_r.
    - rewrite IH. apply wrap_int64_congr.
      rewrite Z.mul_assoc.
      rewrite (Z.mul_mod (wrap_int64 acc * x)), (Z.mul_mod (acc * x)) by lia.
      rewrite (Z.mul_mod (wrap_int64 acc) x), (Z.mul_mod acc x) by lia.
      by rewrite wrap_int64_mod. }
  rewrite <- (wrap_int64_small 1) at 1 by lia.
  rewrite H. by rewrite Z.mul_1_l.
Qed.

Lemma np_prod_exact (l : list Z) :
  - 2 ^ 63 ≤ list_prod l < 2 ^ 63 → np_prod l = list_prod l.
Proof. intros H. rewrite np_prod_wrap. by apply wrap_int64_small. Qed.

End Product.

(** ** Frame count *)

Section FrameCount.
Local Open Scope Z_scope.

(** C2, amended: for a data area of less than [2 ^ 53] bytes and a
    positive frame size below [2 ^ 32], the frame count is the quotient of
    [filesize - image_offset] by [true_image_size] truncated toward zero;
    when the file reaches the image offset this is the floor of the
    quotient, and the frames counted fit in the file while one more frame
    does not. *)
Theorem count_frames_truncates (filesize image_offset true_image_size : Z) :
  - 2 ^ 53 < filesize - image_offset < 2 ^ 53 →
  0 < true_image_size < 2 ^ 32 →
  count_frames filesize image_offset true_image_size
  = Ok (Z.quot (filesize - image_offset) true_image_size)
  ∧ (image_offset ≤ filesize →
     let frame_count := (filesize - image_offset) / true_image_size in
     count_frames filesize image_offset true_image_size = Ok frame_count
     ∧ frame_count * true_image_size + image_offset ≤ filesize
     ∧ filesize < frame_count * true_image_size + image_offset
                  + true_image_size).
Proof.
  intros Ha Hb. unfold count_frames.
  rewrite (int_true_div_quot _ _ Ha Hb). split; [reflexivity|].
  intros Hle. cbv zeta. rewrite Z.quot_div_nonneg by lia.
  split; [reflexivity|].
  pose proof (Z.div_mod (filesize - image_offset) true_image_size
                ltac:(lia)) as Hdm.
  pose proof (Z.mod_pos_bound (filesize - image_offset) true_image_size
                ltac:(lia)) as Hm.
  lia.
Qed.

End FrameCount.

(** ** Initialization *)

Ltac unfold_initialize :=
  unfold _do_initialize, method_bind, self, lift, assign, raise,
    _read_header, _get_image_offset, os_stat_st_size.

Section Initialization.
Context {ndarray : Type}.
Variable mrc_decode : list byte → option ndarray.
Variable np_squeeze : ndarray → ndarray.

Lemma maybe_load_mrc_absent (fs : gmap string (list byte)) (path : string) :
  os_path_exists fs path = false →
  _maybe_load_mrc mrc_decode np_squeeze fs path = Ok None.
Proof. intros H. unfold _maybe_load_mrc. by rewrite H. Qed.

Lemma maybe_load_mrc_raise (fs : gmap string (list byte)) (path : string)
    (e : exn) :
  _maybe_load_mrc mrc_decode np_squeeze fs path = Raise e →
  e = MrcError ∨ e = OSError.
Proof.
  unfold _maybe_load_mrc. destruct (negb _); [discriminate|].
  destruct (fs !! path); [|intros [= <-]; auto].
  destruct (mrc_decode _); [discriminate | intros [= <-]; auto].
Qed.

(** Loading the corrections assigns [_dark] and [_gain] only, and fails
    only in the MRC reader. *)
Lemma maybe_load_dark_gain_spec (fs : gmap string (list byte))
    (s : SEQDataSet) :
  let r := _maybe_load_dark_gain mrc_decode np_squeeze fs s in
  (_path r.2 = _path s ∧ _scan_size r.2 = _scan_size s
   ∧ _header r.2 = _header s ∧ _meta r.2 = _meta s
   ∧ _footer_size r.2 = _footer_size s ∧ _filesize r.2 = _filesize s
   ∧ _image_count r.2 = _image_count s
   ∧ _image_offset r.2 = _image_offset s)
  ∧ (∀ e, r.1 = Raise e → e = MrcError ∨ e = OSError)
  ∧ (∀ dark gain,
       _maybe_load_mrc mrc_decode np_squeeze fs (_path s +:+ ".dark.mrc")
       = Ok dark →
       _maybe_load_mrc mrc_decode np_squeeze fs (_path s +:+ ".gain.mrc")
       = Ok gain →
       r = (Ok tt, set_gain gain (set_dark dark s))).
Proof.
  cbv zeta.
  unfold _maybe_load_dark_gain, method_bind, self, lift, assign.
  destruct (_maybe_load_mrc _ _ fs (_path s +:+ ".dark.mrc"))
    as [dark|e1] eqn:E1.
  - cbn [_path set_dark].
    destruct (_maybe_load_mrc _ _ fs (_path s +:+ ".gain.mrc"))
      as [gain|e2] eqn:E2; cbn.
    + split; [done|]. split; [discriminate|]. by intros ?? [= <-] [= <-].
    + split; [done|]. split; [|discriminate].
      intros e [= <-]. exact (maybe_load_mrc_raise _ _ _ E2).
  - cbn. split; [done|]. split; [|discriminate].
    intros e [= <-]. exact (maybe_load_mrc_raise _ _ _ E1).
Qed.

Lemma maybe_load_mrc_cases (fs : gmap string (list byte)) (path : string) :
  _maybe_load_mrc mrc_decode np_squeeze fs path
  = match fs !! path with
    | None => Ok None
    | Some content =>
        match mrc_decode content with
        | Some data => Ok (Some (np_squeeze data))
        | None => Raise MrcError
        end
    end.
Proof.
  unfold _maybe_load_mrc, os_path_exists.
  destruct (fs !! path) as [content|] eqn:E.
  - assert (is_Some (Some content)) as Hs by eauto.
    by rewrite (bool_decide_eq_true_2 _ Hs).
  - assert (¬ is_Some (@None (list byte))) as Hs by (intros [? ?]; discriminate).
    by rewrite (bool_decide_eq_false_2 _ Hs).
Qed.

Lemma maybe_load_mrc_raise_mrc (fs : gmap string (list byte)) (path : string)
    (e : exn) :
  _maybe_load_mrc mrc_decode np_squeeze fs path = Raise e → e = MrcError.
Proof.
  rewrite maybe_load_mrc_cases. destruct (fs !! path); [|discriminate].
  destruct (mrc_decode _); [discriminate | congruence].
Qed.

Lemma maybe_load_dark_gain_cases (fs : gmap string (list byte))
    (s : SEQDataSet) :
  _maybe_load_dark_gain mrc_decode np_squeeze fs s
  = match _maybe_load_mrc mrc_decode np_squeeze fs (_path s +:+ ".dark.mrc")
    with
    | Raise e => (Raise e, s)
    | Ok dark =>
        match _maybe_load_mrc mrc_decode np_squeeze fs
                (_path s +:+ ".gain.mrc") with
        | Raise e => (Raise e, set_dark dark s)
        | Ok gain => (Ok tt, set_gain gain (set_dark dark s))
        end
    end.
Proof.
  unfold _maybe_load_dark_gain, method_bind, self, lift, assign.
  destruct (_maybe_load_mrc _ _ fs (_path s +:+ ".dark.mrc")); [|done].
  cbn [_path set_dark].
  by destruct (_maybe_load_mrc _ _ fs (_path s +:+ ".gain.mrc")).
Qed.

(** Once the header is decoded, the bit depth is supported and the frame
    count is derived, initialization compares the frame count with the
    scan size and goes on to load the corrections. *)
Lemma do_initialize_geometry (fs : gmap string (list byte)) (s : SEQDataSet)
    (content : list byte) (header : gmap string value) (dt : dtype)
    (count : Z) :
  fs !! _path s = Some content →
  _unpack_header (take HEADER_SIZE content) HEADER_FIELDS = Ok header →
  np_dtype_uint (hdr header "bit_depth") = Ok dt →
  count_frames (Z.of_nat (length content)) (image_offset_of header)
    (hdr header "true_image_size") = Ok count →
  _do_initialize mrc_decode np_squeeze fs s =
  let s1 := geometry_assigned s header dt (Z.of_nat (length content)) count in
  if bool_decide (count ≠ np_prod (_scan_size s)) then
    (Raise (DataSetException scan_size_mismatch), s1)
  else
    _maybe_load_dark_gain mrc_decode np_squeeze fs
      (set_meta
         (Some (mk_DataSetMeta
                  (mk_Shape (_scan_size s
                             ++ [hdr header "height"; hdr header "width"]) 2)
                  dt dt header)) s1).
Proof.
  intros Hfs Hh Hdt Hc.
  unfold _do_initialize, method_bind, self, lift, assign, raise.
  unfold _read_header, _get_image_offset, os_stat_st_size.
  rewrite Hfs, Hh.
  rewrite !(decoded_header_int _ _ _ Hh)
    by (apply (bool_decide_unpack _); vm_compute; exact I).
  cbn [mbind result_bind].
  fold (image_offset_of header).
  replace (if (5 <=? hdr header "version")%Z
           then Ok 8192%Z else Ok 1024%Z)
    with (Ok (A := Z) (image_offset_of header))
    by (unfold image_offset_of; by destruct (5 <=? _)%Z).
  rewrite Hdt, Hc.
  cbn [_scan_size set_image_count set_filesize set_footer_size
       set_timestamp_micro set_image_offset set_header].
  by destruct (bool_decide _).
Qed.


(** C3, amended: for a scan size whose elements fit [int64], with the
    header decoded, the bit depth supported and the frame count derived
    from the file size, initialization raises the scan size mismatch error
    exactly when the frame count differs from [np.prod] of the scan size,
    which is the product of the scan size reduced modulo [2 ^ 64] into
    the range of [int64], and so the product itself whenever that lies in
    this range.  When the two are equal the shape of the dataset is the
    scan size followed by the height and the width, with two signal
    dimensions, and initialization succeeds if the correction files, where
    present, are readable; a correction file that cannot be read makes it
    raise the error of the MRC reader. *)
Theorem initialize_checks_scan_size (fs : gmap string (list byte))
    (s : SEQDataSet) (content : list byte) (header : gmap string value)
    (dt : dtype) (count : Z) :
  fs !! _path s = Some content →
  _unpack_header (take HEADER_SIZE content) HEADER_FIELDS = Ok header →
  np_dtype_uint (hdr header "bit_depth") = Ok dt →
  count_frames (Z.of_nat (length content)) (image_offset_of header)
    (hdr header "true_image_size") = Ok count →
  Forall (λ n, - 2 ^ 63 ≤ n < 2 ^ 63)%Z (_scan_size s) →
  ((_do_initialize mrc_decode np_squeeze fs s).1
   = Raise (DataSetException scan_size_mismatch)
   ↔ count ≠ np_prod (_scan_size s))
  ∧ np_prod (_scan_size s) = wrap_int64 (list_prod (_scan_size s))
  ∧ (count = np_prod (_scan_size s) →
     is_ok (_maybe_load_mrc mrc_decode np_squeeze fs
              (_path s +:+ ".dark.mrc")) = true →
     is_ok (_maybe_load_mrc mrc_decode np_squeeze fs
              (_path s +:+ ".gain.mrc")) = true →
     ∃ s', _do_initialize mrc_decode np_squeeze fs s = (Ok tt, s')
           ∧ _image_count s' = Some count
           ∧ shape s'
             = Ok (mk_Shape (_scan_size s
                             ++ [hdr header "height"; hdr header "width"]) 2)
           ∧ dtype_of s' = Ok dt)
  ∧ (count = np_prod (_scan_size s) →
     is_ok (_maybe_load_mrc mrc_decode np_squeeze fs
              (_path s +:+ ".dark.mrc")) = false
     ∨ is_ok (_maybe_load_mrc mrc_decode np_squeeze fs
                (_path s +:+ ".gain.mrc")) = false →
     (_do_initialize mrc_decode np_squeeze fs s).1 = Raise MrcError
     ∧ shape (_do_initialize mrc_decode np_squeeze fs s).2
       = Ok (mk_Shape (_scan_size s
                       ++ [hdr header "height"; hdr header "width"]) 2))
  ∧ ((- 2 ^ 63 ≤ list_prod (_scan_size s) < 2 ^ 63)%Z →
     ((_do_initialize mrc_decode np_squeeze fs s).1
      = Raise (DataSetException scan_size_mismatch)
      ↔ count ≠ list_prod (_scan_size s))).
Proof.
  intros Hfs Hh Hdt Hc _.
  assert ((_do_initialize mrc_decode np_squeeze fs s).1
          = Raise (DataSetException scan_size_mismatch)
          ↔ count ≠ np_prod (_scan_size s)) as HA.
  { rewrite (do_initialize_geometry _ _ _ _ _ _ Hfs Hh Hdt Hc). cbv zeta.
    case_bool_decide as Hne; [done|].
    split; [|done]. rewrite maybe_load_dark_gain_cases.
    cbn [_path set_meta geometry_assigned set_image_count set_filesize
         set_footer_size set_timestamp_micro set_image_offset set_header].
    destruct (_maybe_load_mrc _ _ fs (_path s +:+ ".dark.mrc"))
      as [dark|e1] eqn:E1.
    2: { rewrite (maybe_load_mrc_raise_mrc _ _ _ E1). cbn. by intros [=]. }
    destruct (_maybe_load_mrc _ _ fs (_path s +:+ ".gain.mrc"))
      as [gain|e2] eqn:E2; [cbn; by intros [=]|].
    rewrite (maybe_load_mrc_raise_mrc _ _ _ E2). cbn. by intros [=]. }
  split; [exact HA|]. split; [apply np_prod_wrap|].
  split; [|split].
  - intros Heq Hdark Hgain.
    rewrite (do_initialize_geometry _ _ _ _ _ _ Hfs Hh Hdt Hc). cbv zeta.
    rewrite bool_decide_eq_false_2 by (intros Hne; by apply Hne).
    rewrite maybe_load_dark_gain_cases.
    cbn [_path set_meta geometry_assigned set_image_count set_filesize
         set_footer_size set_timestamp_micro set_image_offset set_header].
    destruct (_maybe_load_mrc _ _ fs (_path s +:+ ".dark.mrc"))
      as [dark|] eqn:Ed; [|discriminate].
    destruct (_maybe_load_mrc _ _ fs (_path s +:+ ".gain.mrc"))
      as [gain|] eqn:Eg; [|discriminate].
    eexists. split; [reflexivity|]. done.
  - intros Heq Hbad.
    rewrite (do_initialize_geometry _ _ _ _ _ _ Hfs Hh Hdt Hc). cbv zeta.
    rewrite bool_decide_eq_false_2 by (intros Hne; by apply Hne).
    rewrite maybe_load_dark_gain_cases.
    cbn [_path set_meta geometry_assigned set_image_count set_filesize
         set_footer_size set_timestamp_micro set_image_offset set_header].
    destruct (_maybe_load_mrc _ _ fs (_path s +:+ ".dark.mrc"))
      as [dark|e1] eqn:Ed.
    2: { by rewrite (maybe_load_mrc_raise_mrc _ _ _ Ed). }
    destruct (_maybe_load_mrc _ _ fs (_path s +:+ ".gain.mrc"))
      as [gain|e2] eqn:Eg.
    2: { by rewrite (maybe_load_mrc_raise_mrc _ _ _ Eg). }
    cbn in Hbad. by destruct Hbad.
  - intros Hr. by rewrite <- (np_prod_exact _ Hr).
Qed.


(** C9: when neither [<path>.dark.mrc] nor [<path>.gain.mrc] exists,
    loading the corrections raises nothing and leaves both the dark frame
    and the gain map [None], and so does the correction set of the
    dataset. *)
Theorem missing_corrections_are_none (fs : gmap string (list byte))
    (s : SEQDataSet) :
  os_path_exists fs (_path s +:+ ".dark.mrc") = false →
  os_path_exists fs (_path s +:+ ".gain.mrc") = false →
  _maybe_load_mrc mrc_decode np_squeeze fs (_path s +:+ ".dark.mrc") = Ok None
  ∧ _maybe_load_mrc mrc_decode np_squeeze fs (_path s +:+ ".gain.mrc")
    = Ok None
  ∧ ∃ s', _maybe_load_dark_gain mrc_decode np_squeeze fs s = (Ok tt, s')
          ∧ _dark s' = None ∧ _gain s' = None
          ∧ get_correction_data s' = mk_CorrectionSet None None.
Proof.
  intros Hd Hg.
  pose proof (maybe_load_mrc_absent _ _ Hd) as Ed.
  pose proof (maybe_load_mrc_absent _ _ Hg) as Eg.
  split; [exact Ed|]. split; [exact Eg|].
  destruct (maybe_load_dark_gain_spec fs s) as (_ & _ & Hok).
  rewrite (Hok None None Ed Eg). eexists. split; [reflexivity|]. done.
Qed.

End Initialization.

(** ** Further properties of the reader *)

(** X1: the image offset is 8192 bytes for a header of version 5 or
    later and 1024 bytes for an earlier one, in particular for every
    decoded header. *)
Theorem image_offset_by_version (header : gmap string value) (version : Z) :
  _get_image_offset (<["version" := VInt version]> header)
  = Ok (if (5 <=? version)%Z then 8192%Z else 1024%Z)
  ∧ (∀ header_bytes h,
       _unpack_header header_bytes HEADER_FIELDS = Ok h →
       _get_image_offset h
       = Ok (if (5 <=? hdr h "version")%Z then 8192%Z else 1024%Z)).
Proof.
  split.
  - unfold _get_image_offset, header_int. rewrite lookup_insert_eq. cbn.
    by destruct (5 <=? version)%Z.
  - intros header_bytes h Hh. unfold _get_image_offset.
    rewrite (decoded_header_int _ _ "version" Hh)
      by (apply (bool_decide_unpack _); vm_compute; exact I).
    cbn. by destruct (5 <=? _)%Z.
Qed.

(** X2: the header takes 632 bytes, and a file with fewer bytes yields
    no header: reading it raises [struct.error], or
    [UnicodeDecodeError] when a text field before the missing bytes does
    not decode. *)
Theorem read_header_short_file (fs : gmap string (list byte))
    (path : string) (content : list byte) :
  HEADER_SIZE = 632%nat
  ∧ (fs !! path = Some content →
     (length content < HEADER_SIZE)%nat →
     ∃ e, _read_header fs path HEADER_FIELDS = Raise e
          ∧ (e = StructError ∨ e = UnicodeDecodeError)).
Proof.
  split; [reflexivity|]. intros Hfs Hlen. unfold _read_header. rewrite Hfs.
  destruct (_unpack_header (take HEADER_SIZE content) HEADER_FIELDS)
    as [h|e] eqn:E.
  - exfalso. apply unpack_loop_ok_length in E; [|lia].
    rewrite length_take in E. fold HEADER_SIZE in E. lia.
  - exists e. split; [reflexivity|].
    exact (unpack_loop_raise_any _ _ _ _ _ header_fields_text E).
Qed.

Section BitDepth.
Context {ndarray : Type}.
Variable mrc_decode : list byte → option ndarray.
Variable np_squeeze : ndarray → ndarray.

(** X3: a header whose bit depth is not 8, 16, 32 or 64 makes
    initialization fail with the "unsupported bit depth" error, which
    names the bit depth. *)
Theorem initialize_unsupported_bit_depth (fs : gmap string (list byte))
    (s : @SEQDataSet ndarray) (content : list byte)
    (header : gmap string value) :
  fs !! _path s = Some content →
  _unpack_header (take HEADER_SIZE content) HEADER_FIELDS = Ok header →
  hdr header "bit_depth" ∉ [8; 16; 32; 64]%Z →
  (_do_initialize mrc_decode np_squeeze fs s).1
  = Raise (DataSetException
             ("unsupported bit depth: " +:+ pretty (hdr header "bit_depth"))).
Proof.
  intros Hfs Hh Hbd. unfold_initialize. rewrite Hfs, Hh.
  rewrite !(decoded_header_int _ _ _ Hh)
    by (apply (bool_decide_unpack _); vm_compute; exact I).
  cbn [mbind result_bind]. unfold np_dtype_uint.
  rewrite (bool_decide_eq_false_2 _ Hbd).
  by destruct (5 <=? _)%Z.
Qed.

End BitDepth.

(** ** Format detection *)

(** What [detect_params] does for a missing file, an undecodable text
    field, and a wrong magic number. *)
Lemma detect_params_false (fs : gmap string (list byte)) (path : string) :
  (fs !! path = None → detect_params fs path = Ok DetectFalse)
  ∧ (_read_header fs path HEADER_FIELDS = Raise UnicodeDecodeError →
     detect_params fs path = Ok DetectFalse)
  ∧ (∀ header, _read_header fs path HEADER_FIELDS = Ok header →
               hdr header "magic" ≠ 0xFEED%Z →
               detect_params fs path = Ok DetectFalse).
Proof.
  unfold detect_params, detect_params_try. repeat split.
  - intros H. unfold _read_header. by rewrite H.
  - by intros ->.
  - intros header Hh Hm. rewrite Hh. cbn [mbind result_bind].
    unfold _read_header in Hh. destruct (fs !! path); [|discriminate].
    rewrite (decoded_header_int _ _ "magic" Hh)
      by (apply (bool_decide_unpack _); vm_compute; exact I).
    cbn [mbind result_bind]. by rewrite (bool_decide_eq_true_2 _ Hm).
Qed.

(** C6: [detect_params] lets exceptions other than [OSError] and
    [UnicodeDecodeError] through.  On an empty file the header cannot be
    unpacked and [struct.error] is raised; on a file whose header declares
    a true image size of zero the frame count raises
    [ZeroDivisionError]. *)
Theorem detect_params_raises :
  detect_params {[ "empty.seq" := [] ]} "empty.seq" = Raise StructError
  ∧ detect_params
      {[ "zero.seq" := sample_file (sample_header 0xFEED 5 4 4 8 100 0 0)
                         (Z.to_nat 8352) ]} "zero.seq"
    = Raise ZeroDivisionError.
Proof. split; vm_compute; reflexivity. Qed.

(** ** Partitions *)

Section Partitions.
Local Open Scope Z_scope.

Lemma chain_le a l b : chain a l b → a ≤ b.
Proof.
  revert a. induction l as [|[s e] l IH]; intros a; cbn.
  - lia.
  - intros (-> & Hle & Hc). specialize (IH _ Hc). lia.
Qed.


Lemma cover_count_cons r l f :
  cover_count (r :: l) f
  = ((if in_range f r then 1 else 0) + cover_count l f)%nat.
Proof.
  unfold cover_count. rewrite filter_cons.
  destruct (decide (in_range f r = true)) as [->|Hn]; [done|].
  by destruct (in_range f r).
Qed.

Lemma chain_cover_outside a l b f :
  chain a l b → f < a ∨ b ≤ f → cover_count l f = 0%nat.
Proof.
  revert a. induction l as [|[s e] l IH]; intros a; [done|].
  cbn [chain]. intros (-> & Hle & Hc) Hf.
  pose proof (chain_le _ _ _ Hc).
  rewrite cover_count_cons, (IH _ Hc) by lia.
  unfold in_range. cbn [fst snd].
  destruct (Z.leb_spec a f), (Z.ltb_spec f e); cbn; lia.
Qed.

Lemma chain_cover_once a l b f :
  chain a l b → a ≤ f < b → cover_count l f = 1%nat.
Proof.
  revert a. induction l as [|[s e] l IH]; intros a; cbn [chain].
  - lia.
  - intros (-> & Hle & Hc) Hf. rewrite cover_count_cons.
    unfold in_range. cbn [fst snd].
    destruct (Z.leb_spec a f); [|lia].
    destruct (Z.ltb_spec f e); cbn [andb].
    + rewrite (chain_cover_outside _ _ _ _ Hc) by lia. done.
    + rewrite (IH _ Hc) by lia. done.
Qed.



Lemma frame_ranges_make_slices (shape : Shape) (num_partitions : Z) :
  frame_ranges (make_slices shape num_partitions)
  = chunk_range (nav_size shape) num_partitions <$> seqZ 0 num_partitions.
Proof.
  unfold frame_ranges, make_slices. rewrite <- list_fmap_compose.
  by apply list_fmap_ext.
Qed.

Lemma chunk_chain (num_frames num_partitions : Z) (n : nat) (k : Z) :
  0 ≤ num_frames → 0 ≤ k → k + Z.of_nat (S n) = num_partitions →
  chain (k * (num_frames / num_partitions))
    (chunk_range num_frames num_partitions <$> seqZ k (Z.of_nat (S n)))
    num_frames.
Proof.
  intros Hf. revert k. induction n as [|n IH]; intros k Hk Hsum.
  - change (Z.of_nat 1) with 1. rewrite seqZ_cons by lia.
    cbn [Z.pred Z.sub Z.add Z.opp Z.pos_sub]. rewrite seqZ_nil by lia.
    cbn [fmap list_fmap chain]. unfold chunk_range. cbv zeta.
    destruct (Z.eqb_spec k (num_partitions - 1)); [|lia].
    split; [done|]. split; [|done].
    pose proof (Z.mul_div_le num_frames num_partitions ltac:(lia)).
    assert (0 ≤ num_frames / num_partitions) by (apply Z.div_pos; lia).
    nia.
  - rewrite seqZ_cons by lia. cbn [fmap list_fmap chain].
    unfold chunk_range at 1. cbv zeta.
    destruct (Z.eqb_spec k (num_partitions - 1)); [lia|].
    assert (0 ≤ num_frames / num_partitions) by (apply Z.div_pos; lia).
    split; [done|]. split; [nia|].
    replace (Z.pred (Z.of_nat (S (S n)))) with (Z.of_nat (S n)) by lia.
    replace (k + 1) with (Z.succ k) by lia.
    apply IH; lia.
Qed.

Lemma make_slices_chain (shape : Shape) (num_partitions : Z) :
  0 ≤ nav_size shape → 1 ≤ num_partitions →
  chain 0 (frame_ranges (make_slices shape num_partitions)) (nav_size shape).
Proof.
  intros Hf Hp. rewrite frame_ranges_make_slices.
  replace num_partitions with (Z.of_nat (S (Z.to_nat (num_partitions - 1))))
    at 2 by lia.
  change 0 with (0 * (nav_size shape / num_partitions)) at 1.
  apply chunk_chain; lia.
Qed.



End Partitions.

Section GetPartitions.
Local Open Scope Z_scope.
Context {ndarray : Type}.
Variable get_for_range : SEQFileSet → Z → Z → SEQFileSet.


End GetPartitions.

(** ** The data type of the sum *)

Section SumFramesProperties.
Context {scalar : Type}.
Variable zero : scalar.
Variable convert : dtype → dtype → scalar → scalar.
Variable add : dtype → scalar → scalar → scalar.

Lemma kind_is_integer (dt : dtype) :
  bool_decide (kind dt ∈ ["u"; "i"])
  = match dt with DUInt _ | DInt _ => true | _ => false end.
Proof. destruct dt; vm_compute; reflexivity. Qed.

Lemma iadd_keeps_dtype (target source t' : @sig_array scalar)
    (index : list nat) :
  iadd convert add target index source = Ok t' →
  arr_dtype t' = arr_dtype target.
Proof.
  unfold iadd. destruct (can_cast_same_kind _ _); [|discriminate].
  by intros [= <-].
Qed.

Lemma iadd_raise (target source : @sig_array scalar) (index : list nat)
    (e : exn) :
  iadd convert add target index source = Raise e →
  e = UFuncTypeError
  ∧ can_cast_same_kind (result_type (arr_dtype target) (arr_dtype source))
      (arr_dtype target) = false.
Proof.
  unfold iadd. destruct (can_cast_same_kind _ _); [discriminate|].
  by intros [= <-].
Qed.

Lemma sum_step_source_dtype (data_tile : @DataTile scalar) :
  arr_dtype
    (tile_sum zero convert add
       (if bool_decide (kind (tile_dtype data_tile) ∈ ["u"; "i"])
        then astype convert float32 data_tile else data_tile))
  = summed_dtype (tile_dtype data_tile).
Proof.
  rewrite kind_is_integer.
  destruct (tile_dtype data_tile) eqn:E; cbn; rewrite ?E; reflexivity.
Qed.

Lemma float32_accepts (dt : dtype) :
  can_cast_same_kind (result_type float32 (summed_dtype dt)) float32
  = match dt with DComplex _ => false | _ => true end.
Proof. destruct dt; vm_compute; reflexivity. Qed.

Lemma kind_complex (dt : dtype) :
  kind dt = "c" ↔ match dt with DComplex _ => True | _ => False end.
Proof. destruct dt; cbn; split; (done || discriminate). Qed.

Lemma sum_step_float32 (part : @sig_array scalar) (data_tile : DataTile) :
  arr_dtype part = float32 →
  match sum_step zero convert add part data_tile with
  | Ok part' => arr_dtype part' = float32
                ∧ kind (tile_dtype data_tile) ≠ "c"
  | Raise e => e = UFuncTypeError ∧ kind (tile_dtype data_tile) = "c"
  end.
Proof.
  intros Hp. unfold sum_step. cbv zeta.
  destruct (iadd convert add part _ _) as [part'|e] eqn:E.
  - split; [by rewrite (iadd_keeps_dtype _ _ _ _ E)|].
    revert E. unfold iadd.
    rewrite sum_step_source_dtype, Hp, float32_accepts, kind_complex.
    destruct (tile_dtype data_tile); intros E;
      first [discriminate E | tauto].
  - apply iadd_raise in E as [-> E]. split; [done|].
    revert E.
    rewrite sum_step_source_dtype, Hp, float32_accepts, kind_complex.
    destruct (tile_dtype data_tile); intros E;
      first [discriminate E | tauto].
Qed.





End SumFramesProperties.

(** ** Merging with an exact addition *)

Section ExactMerge.
Context {scalar : Type}.
Variable convert : dtype → dtype → scalar → scalar.
Variable add : dtype → scalar → scalar → scalar.

Lemma iadd_elementwise (f : scalar → scalar → scalar)
    (done rest xs : list scalar) :
  length xs = length rest →
  foldl (λ (acc : list scalar) '(i, x),
           match acc !! i with
           | Some p => <[i := f p x]> acc
           | None => acc
           end)
    (done ++ rest) (zip (seq (length done) (length rest)) xs)
  = done ++ zip_with f rest xs.
Proof.
  revert done xs. induction rest as [|r rest IH]; intros done xs Hlen.
  - destruct xs; [done | discriminate].
  - destruct xs as [|x xs]; [discriminate|].
    cbn [length seq zip zip_with foldl].
    rewrite list_lookup_middle by done.
    rewrite insert_app_r_alt, Nat.sub_diag by lia. cbn [insert list_insert].
    specialize (IH (done ++ [f r x]) xs).
    rewrite length_app, <- !app_assoc in IH. cbn [length app] in IH.
    rewrite Nat.add_1_r in IH. apply IH. by injection Hlen.
Qed.

(** An addition without rounding: commutative and associative, on
    elements that conversions leave unchanged. *)
Hypothesis add_comm : ∀ dt x y, add dt x y = add dt y x.
Hypothesis add_assoc :
  ∀ dt x y z, add dt x (add dt y z) = add dt (add dt x y) z.
Hypothesis convert_exact : ∀ from to x, convert from to x = x.

Lemma reduce_float32 (t : SumResultTile) (res : sig_array) :
  arr_dtype res = float32 → arr_dtype (data t) = float32 →
  length (arr_data (data t)) = length (arr_data res) →
  reduce_into_result convert add t res
  = Ok (mk_sig_array float32
          (zip_with (add float32) (arr_data res) (arr_data (data t)))).
Proof.
  intros Hr Ht Hlen. unfold reduce_into_result, iadd. rewrite Hr, Ht.
  change (result_type float32 float32) with float32.
  change (can_cast_same_kind float32 float32) with true. cbv iota.
  f_equal. f_equal.
  etrans; [exact (iadd_elementwise _ [] (arr_data res) (arr_data (data t))
                    Hlen)|].
  cbn [app]. apply zip_with_ext; [|done..].
  intros p x. by rewrite !convert_exact.
Qed.

Lemma zip_with_add_swap (dt : dtype) (r t1 t2 : list scalar) :
  zip_with (add dt) (zip_with (add dt) r t1) t2
  = zip_with (add dt) (zip_with (add dt) r t2) t1.
Proof.
  revert t1 t2. induction r as [|x r IH]; intros [|y t1] [|z t2]; cbn;
    try done.
  rewrite IH. f_equal.
  by rewrite <- !add_assoc, (add_comm dt y z).
Qed.

(** X4: were the addition exact, the result tiles of the partitions
    could be merged into a [float32] accumulator in any order with the
    same outcome; the order matters only through the rounding of the
    [float32] additions. *)
Theorem merge_order_exact (tiles tiles' : list (@SumResultTile scalar))
    (res : sig_array) :
  tiles ≡ₚ tiles' →
  arr_dtype res = float32 →
  Forall (mergeable res) tiles →
  merge_all convert add tiles res = merge_all convert add tiles' res.
Proof.
  intros Hperm. revert res.
  induction Hperm as [|t l l' Hp IH|t1 t2 l|l l' l'' Hp1 IH1 Hp2 IH2];
    intros res Hr Hall.
  - done.
  - apply Forall_cons in Hall as [[Ht Hlen] Hall]. cbn [merge_all].
    rewrite reduce_float32 by done. cbn [mbind result_bind].
    apply IH; [done|].
    eapply Forall_impl; [exact Hall|]. intros t' [? Hl]. split; [done|].
    cbn. rewrite length_zip_with_l_eq by done. done.
  - apply Forall_cons in Hall as [[Ht2 Hl2] Hall].
    apply Forall_cons in Hall as [[Ht1 Hl1] Hall]. cbn [merge_all].
    rewrite !reduce_float32 by done. cbn [mbind result_bind].
    rewrite !reduce_float32;
      try done; cbn [arr_data]; try (rewrite length_zip_with_l_eq; done).
    cbn [mbind result_bind arr_data]. by rewrite zip_with_add_swap.
  - rewrite IH1 by done. apply IH2; [done|]. by rewrite <- Hp1.
Qed.

End ExactMerge.

(** * Concrete runs *)

(** Settles a decidable statement about closed terms by evaluating its
    decision procedure. *)
Ltac compute_decide := apply (bool_decide_unpack _); vm_compute; exact I.

Lemma run_ok {A S : Type} (r : result A * S) (a : A) :
  r.1 = Ok a → r = (Ok a, r.2).
Proof. destruct r as [r1 r2]. cbn. by intros ->. Qed.

Example decode_str_ascii :
  _decode_str [x61; x00; x62; x00; x00; x00; x00; x00] = Ok [97; 98]%Z.
Proof. vm_compute. reflexivity. Qed.

Example decode_str_no_terminator :
  _decode_str [x61; x00; x62; x00] = Ok [97; 98]%Z.
Proof. vm_compute. reflexivity. Qed.

(** An empty text field: the byte kept is half a code unit. *)
Example decode_str_empty_field :
  _decode_str (replicate 512 x00) = Raise UnicodeDecodeError.
Proof. vm_compute. reflexivity. Qed.

Example decode_str_lone_surrogate :
  _decode_str [x00; xd8; x61; x00] = Raise UnicodeDecodeError.
Proof. vm_compute. reflexivity. Qed.

Example sample_run_ok :
  sample_run.1 = Ok tt
  ∧ _image_count sample_run.2 = Some 10%Z
  ∧ shape sample_run.2 = Ok (mk_Shape [2; 5; 4; 4]%Z 2).
Proof. vm_compute. done. Qed.

Example scan_size_3_3_mismatch :
  (_do_initialize no_mrc id sample_fs (__init__ "a.seq" [3; 3]%Z 4)).1
  = Raise (DataSetException scan_size_mismatch).
Proof. vm_compute. reflexivity. Qed.

Example check_valid_magic :
  check_valid (set_header (Some (<["magic" := VInt 0]> sample_header_map))
                 sample_dataset)
  = Raise (DataSetException unrecognized_format).
Proof. vm_compute. reflexivity. Qed.

Example check_valid_compression :
  check_valid
    (set_header (Some (<["compression_format" := VInt 1]> sample_header_map))
       sample_dataset)
  = Raise (DataSetException only_uncompressed).
Proof. vm_compute. reflexivity. Qed.

Example check_valid_image_format :
  check_valid
    (set_header (Some (<["image_format" := VInt 200]> sample_header_map))
       sample_dataset)
  = Raise (DataSetException non_monochrome).
Proof. vm_compute. reflexivity. Qed.

Example make_slices_10_by_4 :
  frame_ranges (make_slices (mk_Shape [2; 5; 4; 4]%Z 2) 4)
  = [(0, 2); (2, 4); (4, 6); (6, 10)]%Z.
Proof. vm_compute. reflexivity. Qed.

Example make_slices_3_by_5 :
  frame_ranges (make_slices (mk_Shape [3; 4; 4]%Z 2) 5)
  = [(0, 0); (0, 0); (0, 0); (0, 0); (0, 3)]%Z.
Proof. vm_compute. reflexivity. Qed.

(** C8, on the header of the ten-frame file. *)
Lemma check_valid_checks_witness : check_valid sample_run.2 = Ok tt.
Proof.
  destruct (check_valid_checks sample_run.2 sample_header_map 0xFEED 0 100)
    as (_ & _ & _ & H & _); [compute_decide..|].
  apply H; reflexivity.
Defined.

(** C2, on the ten-frame file: 8352 bytes, image offset 8192, frames of
    16 bytes. *)
Lemma count_frames_truncates_witness :
  count_frames 8352 8192 16 = Ok 10%Z
  ∧ (10 * 16 + 8192 ≤ 8352 < 10 * 16 + 8192 + 16)%Z.
Proof.
  destruct (count_frames_truncates 8352 8192 16) as [_ H]; [lia..|].
  destruct H as (H1 & H2 & H3); [lia|].
  split; [exact H1 | split; [exact H2 | exact H3]].
Defined.

(** C2: on the 700-byte file the count is -20, which is not the floor
    -21, and 20 frames short of the start of the file do not fit the
    bracket; [detect_params] reports this count.  For a data area of
    [2 ^ 62 - 1] bytes and frames of [2 ^ 31] bytes the count is
    [2 ^ 31], one more than the floor, and that many frames do not fit
    the file. *)
Lemma count_frames_not_floor :
  count_frames 700 1024 16 = Ok (-20)%Z
  ∧ ((700 - 1024) / 16 = -21)%Z
  ∧ ¬ (-20 * 16 + 1024 ≤ 700)%Z
  ∧ detect_params truncated_fs "a.seq" = Ok (DetectParams "a.seq" "-20")
  ∧ count_frames (2 ^ 62 - 1 + 8192) 8192 (2 ^ 31) = Ok (2 ^ 31)%Z
  ∧ ((2 ^ 62 - 1 + 8192 - 8192) / 2 ^ 31 = 2 ^ 31 - 1)%Z
  ∧ ¬ (2 ^ 31 * 2 ^ 31 + 8192 ≤ 2 ^ 62 - 1 + 8192)%Z.
Proof.
  split; [vm_compute; reflexivity|].
  split; [reflexivity|]. split; [lia|].
  split; [vm_compute; reflexivity|].
  split; [vm_compute; reflexivity|].
  split; [reflexivity|]. lia.
Qed.

(** C3, on the ten-frame file with scan size (2, 5). *)
Lemma initialize_checks_scan_size_witness :
  ∃ s', sample_run = (Ok tt, s')
        ∧ _image_count s' = Some 10%Z
        ∧ shape s' = Ok (mk_Shape [2; 5; 4; 4]%Z 2)
        ∧ dtype_of s' = Ok (DUInt 8).
Proof.
  destruct (initialize_checks_scan_size no_mrc id sample_fs sample_dataset
              ten_frames sample_header_map (DUInt 8) 10)
    as (_ & _ & H & _); [compute_decide..|].
  apply H; vm_compute; reflexivity.
Defined.

(** C3: the ten-frame file initializes with the scan size
    (26, 709490156681136601), whose product is [2 ^ 64 + 10] and not 10:
    [np.prod] wraps around to 10.  With the scan size (2, 5), whose
    product is the frame count, and a dark frame file that the MRC reader
    cannot decode, initialization does not succeed. *)
Lemma scan_size_product_wraps :
  (_do_initialize no_mrc id sample_fs
     (__init__ "a.seq" [26; 709490156681136601]%Z 4)).1 = Ok tt
  ∧ _image_count
      (_do_initialize no_mrc id sample_fs
         (__init__ "a.seq" [26; 709490156681136601]%Z 4)).2 = Some 10%Z
  ∧ (list_prod [26; 709490156681136601] = 2 ^ 64 + 10)%Z
  ∧ (10 ≠ 2 ^ 64 + 10)%Z
  ∧ (_do_initialize no_mrc id (<["a.seq.dark.mrc" := []]> sample_fs)
       sample_dataset).1 = Raise MrcError
  ∧ (list_prod [2; 5] = 10)%Z.
Proof.
  split; [vm_compute; reflexivity|]. split; [vm_compute; reflexivity|].
  split; [reflexivity|]. split; [lia|].
  split; [vm_compute; reflexivity | reflexivity].
Qed.



(** C9, on the sample file system, which holds no correction file. *)
Lemma missing_corrections_are_none_witness :
  ∃ s', _maybe_load_dark_gain no_mrc id sample_fs sample_dataset = (Ok tt, s')
        ∧ get_correction_data s' = mk_CorrectionSet None None.
Proof.
  destruct (missing_corrections_are_none no_mrc id sample_fs sample_dataset)
    as (_ & _ & s' & H & _ & _ & Hc); [vm_compute; reflexivity..|].
  exists s'. split; [exact H | exact Hc].
Defined.



(** X3, on the file of 12-bit pixels. *)
Lemma initialize_unsupported_bit_depth_witness :
  (_do_initialize no_mrc id twelve_bit_fs sample_dataset).1
  = Raise (DataSetException "unsupported bit depth: 12").
Proof.
  rewrite (initialize_unsupported_bit_depth no_mrc id twelve_bit_fs
             sample_dataset
             (sample_file (sample_header 0xFEED 5 4 4 12 100 16 0)
                (Z.to_nat (8192 + 10 * 16)))
             (default ∅ (_header (_do_initialize no_mrc id twelve_bit_fs
                                    sample_dataset).2)));
    [vm_compute; reflexivity | compute_decide..].
Defined.

(** The task on exact integers: two tiles of [uint8] frames over a signal
    of three pixels, the second tile covering the last two pixels. *)
Example sum_task_integers :
  SumFramesTask_call 0%Z (λ _ _ x, x) (λ _, Z.add) 3
    [ mk_DataTile (DUInt 8) [[1; 2; 3]; [10; 20; 30]]%Z [0; 1; 2]%nat;
      mk_DataTile (DUInt 8) [[100; 200]]%Z [1; 2]%nat ]
  = Ok [ mk_SumResultTile (mk_sig_array float32 [11; 122; 233]%Z) ].
Proof. vm_compute. reflexivity. Qed.

Example sum_task_complex :
  SumFramesTask_call 0%Z (λ _ _ x, x) (λ _, Z.add) 1
    [ mk_DataTile (DComplex 128) [[1]]%Z [0%nat] ]
  = Raise UFuncTypeError.
Proof. vm_compute. reflexivity. Qed.

Example reduce_into_result_adds :
  reduce_into_result (λ _ _ x, x) (λ _, Z.add)
    (mk_SumResultTile (mk_sig_array float32 [11; 122; 233]%Z))
    (mk_sig_array float32 [1; 1; 1]%Z)
  = Ok (mk_sig_array float32 [12; 123; 234]%Z).
Proof. vm_compute. reflexivity. Qed.

(** X4, on integers, where the addition is exact. *)
Lemma merge_order_exact_witness :
  merge_all (λ _ _ x, x) (λ _, Z.add)
    [ mk_SumResultTile (mk_sig_array float32 [1; 2]%Z);
      mk_SumResultTile (mk_sig_array float32 [10; 20]%Z) ]
    (mk_sig_array float32 [0; 0]%Z)
  = merge_all (λ _ _ x, x) (λ _, Z.add)
      [ mk_SumResultTile (mk_sig_array float32 [10; 20]%Z);
        mk_SumResultTile (mk_sig_array float32 [1; 2]%Z) ]
      (mk_sig_array float32 [0; 0]%Z).
Proof.
  apply (merge_order_exact (λ _ _ x, x) (λ _, Z.add)
           (λ _, Z.add_comm) (λ _, Z.add_assoc) (λ _ _ _, eq_refl)).
  - apply perm_swap.
  - reflexivity.
  - repeat constructor.
Defined.

(** * Further properties *)

(** ** The layout of a decoded header *)

Section Layout.
Local Open Scope Z_scope.

Lemma header_names_nodup : NoDup HEADER_FIELDS.*1.
Proof. apply (bool_decide_unpack _). vm_compute. exact I. Qed.

(** Text fields and byte blocks are the same fields of the table. *)
Lemma header_text_formats :
  Forall (λ nf : string * struct_fmt,
            bool_decide (nf.1 ∈ str_fields)
            = match nf.2 with Fmts _ => true | _ => false end)
    HEADER_FIELDS.
Proof. apply (bool_decide_unpack _). vm_compute. exact I. Qed.

(** The value of field number [i] is what the loop reads at the offset
    that the sizes of the fields before it add up to. *)
Lemma decoded_header_at header_bytes h (i : nat) name fmt :
  _unpack_header header_bytes HEADER_FIELDS = Ok h →
  HEADER_FIELDS !! i = Some (name, fmt) →
  ∃ v, field_value header_bytes (fields_size (take i HEADER_FIELDS)) name fmt
       = Ok v
       ∧ h !! name = Some v.
Proof.
  intros H Hi.
  apply (unpack_header_field _ _ (take i HEADER_FIELDS) name fmt
           (drop (S i) HEADER_FIELDS)); [by rewrite take_drop_middle| |exact H].
  pose proof header_names_nodup as Hnd.
  rewrite <- (take_drop_middle _ _ _ Hi), fmap_app, fmap_cons in Hnd.
  apply NoDup_app in Hnd as (_ & _ & Hnd).
  by apply NoDup_cons in Hnd as [? _].
Qed.

Lemma unpack_loop_dom header_bytes fields pos tmp h :
  unpack_loop header_bytes fields pos tmp = Ok h →
  dom h = dom tmp ∪ list_to_set fields.*1.
Proof.
  revert pos tmp. induction fields as [|[n f] fields IH]; intros pos tmp.
  - intros [= <-]. cbn. by rewrite (right_id_L ∅ (∪)).
  - rewrite unpack_loop_cons. intros H.
    apply result_bind_ok in H as (v & _ & H).
    rewrite (IH _ _ H), dom_insert_L. cbn.
    by rewrite (comm_L (∪) {[n]}), (assoc_L (∪)).
Qed.

Lemma byte_val_bounds (b : byte) : 0 ≤ byte_val b < 256.
Proof.
  unfold byte_val. pose proof (Byte.to_N_bounded b). lia.
Qed.

Lemma le_uint_bounds (bs : list byte) :
  0 ≤ le_uint bs < 256 ^ Z.of_nat (length bs).
Proof.
  induction bs as [|b bs IH]; [cbn; lia|].
  cbn [le_uint length]. rewrite Nat2Z.inj_succ, Z.pow_succ_r by lia.
  pose proof (byte_val_bounds b). lia.
Qed.

Lemma to_signed_32_bounds (n : Z) :
  0 ≤ n < 2 ^ 32 → - 2 ^ 31 ≤ to_signed 32 n < 2 ^ 31.
Proof.
  intros Hn. unfold to_signed.
  destruct (Z.leb_spec (2 ^ (32 - 1)) n); lia.
Qed.

(** What [struct.unpack] reads for a field, when the field is there. *)
Lemma field_value_read header_bytes pos name fmt v :
  field_value header_bytes pos name fmt = Ok v →
  let field := take (struct_size fmt) (drop pos header_bytes) in
  length field = struct_size fmt
  ∧ (if bool_decide (name ∈ str_fields)
     then ∃ raw, struct_unpack fmt field = Ok raw ∧ decode_value raw = Ok v
     else struct_unpack fmt field = Ok v).
Proof.
  unfold field_value, _unpack_header_field. cbv zeta.
  destruct (struct_unpack fmt _) as [raw|e] eqn:E; [|discriminate].
  cbn [mbind result_bind]. intros H. split.
  - revert E. unfold struct_unpack.
    destruct (bool_decide (length _ = _)) eqn:El; [|discriminate].
    by apply bool_decide_eq_true in El.
  - destruct (bool_decide (name ∈ str_fields)); [eauto | exact H].
Qed.

Lemma code_unit_bounds be b0 b1 : 0 ≤ code_unit be b0 b1 < 0x10000.
Proof.
  unfold code_unit. pose proof (byte_val_bounds b0).
  pose proof (byte_val_bounds b1). destruct be; lia.
Qed.

Lemma surrogate_bounds (c : Z) :
  (is_high_surrogate c = true ↔ 0xD800 ≤ c ≤ 0xDBFF)
  ∧ (is_low_surrogate c = true ↔ 0xDC00 ≤ c ≤ 0xDFFF).
Proof. unfold is_high_surrogate, is_low_surrogate. lia. Qed.

Lemma utf16_units_text be (q : list byte) (t : list Z) :
  utf16_units be q = Ok t →
  (2 * length t ≤ length q)%nat ∧ Forall scalar_value t.
Proof.
  remember (length q) as n eqn:Hn. revert q t Hn.
  induction n as [n IH] using lt_wf_ind. intros q t Hn.
  destruct q as [|b0 [|b1 rest]]; cbn [utf16_units].
  - intros [= <-]. cbn. split; [lia | constructor].
  - discriminate.
  - pose proof (code_unit_bounds be b0 b1) as Hc.
    destruct (surrogate_bounds (code_unit be b0 b1)) as [Hhi Hlo].
    destruct (is_high_surrogate (code_unit be b0 b1)).
    + destruct rest as [|b2 [|b3 rest']]; [discriminate..|].
      pose proof (code_unit_bounds be b2 b3) as Hc2.
      destruct (surrogate_bounds (code_unit be b2 b3)) as [_ Hlo2].
      destruct (is_low_surrogate (code_unit be b2 b3)); [|discriminate].
      destruct (utf16_units be rest') as [t'|] eqn:E; [|discriminate].
      intros [= <-].
      destruct (IH (length rest') ltac:(subst n; cbn; lia) rest' t' eq_refl E)
        as [Hl Hs].
      subst n. cbn [length]. split; [lia|].
      constructor; [|exact Hs]. unfold scalar_value. lia.
    + destruct (is_low_surrogate (code_unit be b0 b1)); [discriminate|].
      destruct (utf16_units be rest) as [t'|] eqn:E; [|discriminate].
      intros [= <-].
      destruct (IH (length rest) ltac:(subst n; cbn; lia) rest t' eq_refl E)
        as [Hl Hs].
      subst n. cbn [length]. split; [lia|].
      constructor; [|exact Hs]. unfold scalar_value.
      assert (¬ (0xD800 ≤ code_unit be b0 b1 ≤ 0xDBFF)) by (intros Hx; apply Hhi in Hx; discriminate).
      assert (¬ (0xDC00 ≤ code_unit be b0 b1 ≤ 0xDFFF)) by (intros Hx; apply Hlo in Hx; discriminate).
      lia.
Qed.

Lemma utf16_decode_text (q : list byte) (t : list Z) :
  utf16_decode q = Ok t →
  (2 * length t ≤ length q)%nat ∧ Forall scalar_value t.
Proof.
  unfold utf16_decode. destruct q as [|b0 [|b1 rest]];
    try apply utf16_units_text.
  destruct (_ && _).
  { intros H. apply utf16_units_text in H as [? ?]. cbn [length]. split; [lia|done]. }
  destruct (_ && _); [|apply utf16_units_text].
  intros H. apply utf16_units_text in H as [? ?]. cbn [length]. split; [lia|done].
Qed.

Lemma decode_str_text (str_in : list byte) (t : list Z) :
  _decode_str str_in = Ok t →
  (2 * length t ≤ length str_in)%nat ∧ Forall scalar_value t.
Proof.
  unfold _decode_str. intros H. apply utf16_decode_text in H as [Hl Hs].
  split; [|exact Hs]. rewrite length_take in Hl. lia.
Qed.

(** The value that a decoded header holds for each field of the table. *)
Lemma decoded_header_values (header_bytes : list byte)
    (h : gmap string value) (i : nat) (name : string) (fmt : struct_fmt) :
  _unpack_header header_bytes HEADER_FIELDS = Ok h →
  HEADER_FIELDS !! i = Some (name, fmt) →
  let field := take (struct_size fmt)
                 (drop (fields_size (take i HEADER_FIELDS)) header_bytes) in
  length field = struct_size fmt
  ∧ match fmt with
    | FmtL | FmtH => h !! name = Some (VInt (le_uint field))
    | Fmtl => h !! name = Some (VInt (to_signed 32 (le_uint field)))
    | Fmtd => h !! name = Some (VFloat (le_uint field))
    | Fmts _ => ∃ text, _decode_str field = Ok text
                        ∧ h !! name = Some (VStr text)
    end.
Proof.
  intros H Hi. cbv zeta.
  destruct (decoded_header_at _ _ _ _ _ H Hi) as (v & Hv & Hl).
  apply field_value_read in Hv as [Hlen Hv]. split; [exact Hlen|].
  pose proof header_text_formats as Hf. rewrite Forall_forall in Hf.
  specialize (Hf (name, fmt) (list_elem_of_lookup_2 _ _ _ Hi)).
  cbn [fst snd] in Hf. rewrite Hf in Hv. rewrite Hl.
  unfold struct_unpack in Hv. rewrite (bool_decide_eq_true_2 _ Hlen) in Hv.
  destruct fmt; try (by injection Hv as <-).
  destruct Hv as (raw & [= <-] & Hd). cbn [decode_value] in Hd.
  destruct (_decode_str _) as [t|]; [|discriminate].
  injection Hd as <-. eauto.
Qed.

(** X5: a decoded header has the 26 declared keys and no other, and the
    value of each field is read from the bytes at the offset that the
    sizes of the fields before it add up to: the little-endian unsigned
    number for a DWORD or USHORT, the two's complement number for a LONG,
    the 64-bit pattern for a DOUBLE, the decoded text for the two text
    fields.  The fields that the reader uses are at the offsets 0 (magic),
    28 (version), 548 (width), 552 (height), 556 (bit depth), 568 (image
    format), 580 (true image size) and 620 (compression format). *)
Theorem decoded_header_layout (header_bytes : list byte)
    (h : gmap string value) :
  _unpack_header header_bytes HEADER_FIELDS = Ok h →
  dom h = list_to_set HEADER_FIELDS.*1
  ∧ (∀ (i : nat) name fmt,
       HEADER_FIELDS !! i = Some (name, fmt) →
       let field := take (struct_size fmt)
                      (drop (fields_size (take i HEADER_FIELDS))
                         header_bytes) in
       length field = struct_size fmt
       ∧ match fmt with
         | FmtL | FmtH => h !! name = Some (VInt (le_uint field))
         | Fmtl => h !! name = Some (VInt (to_signed 32 (le_uint field)))
         | Fmtd => h !! name = Some (VFloat (le_uint field))
         | Fmts _ => ∃ text, _decode_str field = Ok text
                             ∧ h !! name = Some (VStr text)
         end)
  ∧ h !! "magic" = Some (VInt (le_uint (take 4 header_bytes)))
  ∧ h !! "version"
    = Some (VInt (to_signed 32 (le_uint (take 4 (drop 28 header_bytes)))))
  ∧ h !! "width" = Some (VInt (le_uint (take 4 (drop 548 header_bytes))))
  ∧ h !! "height" = Some (VInt (le_uint (take 4 (drop 552 header_bytes))))
  ∧ h !! "bit_depth" = Some (VInt (le_uint (take 4 (drop 556 header_bytes))))
  ∧ h !! "image_format"
    = Some (VInt (le_uint (take 4 (drop 568 header_bytes))))
  ∧ h !! "true_image_size"
    = Some (VInt (le_uint (take 4 (drop 580 header_bytes))))
  ∧ h !! "compression_format"
    = Some (VInt (le_uint (take 4 (drop 620 header_bytes)))).
Proof.
  intros H.
  pose proof (λ i name fmt, decoded_header_values _ _ i name fmt H) as Hgen.
  split; [|split; [exact Hgen|]].
  - rewrite (unpack_loop_dom _ _ _ _ _ H), dom_empty_L.
    by rewrite (left_id_L ∅ (∪)).
  - repeat split.
    + exact (proj2 (Hgen 0%nat "magic" DWORD eq_refl)).
    + exact (proj2 (Hgen 2%nat "version" LONG eq_refl)).
    + exact (proj2 (Hgen 5%nat "width" DWORD eq_refl)).
    + exact (proj2 (Hgen 6%nat "height" DWORD eq_refl)).
    + exact (proj2 (Hgen 7%nat "bit_depth" DWORD eq_refl)).
    + exact (proj2 (Hgen 10%nat "image_format" DWORD eq_refl)).
    + exact (proj2 (Hgen 13%nat "true_image_size" DWORD eq_refl)).
    + exact (proj2 (Hgen 22%nat "compression_format" DWORD eq_refl)).
Qed.

Lemma decoded_header_range (header_bytes : list byte)
    (h : gmap string value) (name : string) (fmt : struct_fmt) :
  _unpack_header header_bytes HEADER_FIELDS = Ok h →
  (name, fmt) ∈ HEADER_FIELDS →
  match fmt with
  | FmtL => ∃ n, h !! name = Some (VInt n) ∧ 0 ≤ n < 2 ^ 32
  | Fmtl => ∃ n, h !! name = Some (VInt n) ∧ - 2 ^ 31 ≤ n < 2 ^ 31
  | FmtH => ∃ n, h !! name = Some (VInt n) ∧ 0 ≤ n < 2 ^ 16
  | Fmtd => ∃ bits, h !! name = Some (VFloat bits) ∧ 0 ≤ bits < 2 ^ 64
  | Fmts size => ∃ text, h !! name = Some (VStr text)
                         ∧ (2 * length text ≤ size)%nat
                         ∧ Forall scalar_value text
  end.
Proof.
  intros H Hin. apply list_elem_of_lookup in Hin as [i Hi].
  destruct (decoded_header_values _ _ _ _ _ H Hi) as [Hlen Hv].
  match type of Hlen with
  | length ?f = _ => pose proof (le_uint_bounds f) as Hb; rewrite Hlen in Hb
  end.
  destruct fmt; cbn [struct_size] in *.
  - eexists. split; [exact Hv | exact Hb].
  - eexists. split; [exact Hv | by apply to_signed_32_bounds].
  - eexists. split; [exact Hv | exact Hb].
  - eexists. split; [exact Hv | exact Hb].
  - destruct Hv as (text & Hd & Hv). exists text. split; [exact Hv|].
    apply decode_str_text in Hd as [Hl Hs]. rewrite Hlen in Hl. by split.
Qed.

(** X6: the values of a decoded header are within the ranges of their
    types: a DWORD field holds an integer of [[0, 2^32)], a LONG field one
    of [[-2^31, 2^31)], a USHORT field one of [[0, 2^16)], a DOUBLE field a
    64-bit pattern, and a text field of [n] bytes a text of at most [n / 2]
    code points, none of them a surrogate.  So reading an integer field of
    a decoded header raises neither [KeyError] nor [TypeError]. *)
Theorem decoded_header_ranges (header_bytes : list byte)
    (h : gmap string value) :
  _unpack_header header_bytes HEADER_FIELDS = Ok h →
  (∀ name fmt,
     (name, fmt) ∈ HEADER_FIELDS →
     match fmt with
     | FmtL => ∃ n, h !! name = Some (VInt n) ∧ 0 ≤ n < 2 ^ 32
     | Fmtl => ∃ n, h !! name = Some (VInt n) ∧ - 2 ^ 31 ≤ n < 2 ^ 31
     | FmtH => ∃ n, h !! name = Some (VInt n) ∧ 0 ≤ n < 2 ^ 16
     | Fmtd => ∃ bits, h !! name = Some (VFloat bits) ∧ 0 ≤ bits < 2 ^ 64
     | Fmts size => ∃ text, h !! name = Some (VStr text)
                            ∧ (2 * length text ≤ size)%nat
                            ∧ Forall scalar_value text
     end)
  ∧ (∀ name fmt,
       (name, fmt) ∈ HEADER_FIELDS → fmt ∈ [DWORD; LONG; USHORT] →
       ∃ n, header_int h name = Ok n).
Proof.
  intros H.
  split; [intros name fmt; exact (decoded_header_range _ _ name fmt H)|].
  intros name fmt Hin Hfmt.
  pose proof (decoded_header_range _ _ _ _ H Hin) as Hr.
  unfold header_int.
  repeat (apply elem_of_cons in Hfmt as [-> | Hfmt];
          [destruct Hr as (n & -> & _); by exists n|]).
  by apply elem_of_nil in Hfmt.
Qed.

Lemma decoded_true_image_size (header_bytes : list byte)
    (h : gmap string value) :
  _unpack_header header_bytes HEADER_FIELDS = Ok h →
  0 ≤ hdr h "true_image_size" < 2 ^ 32.
Proof.
  intros H.
  destruct (decoded_header_range _ _ "true_image_size" DWORD H) as (n & Hn & ?).
  { by apply (list_elem_of_lookup_2 _ 13%nat). }
  unfold hdr. by rewrite Hn.
Qed.

(** The frame count of a file of less than [2 ^ 53] bytes with a decoded
    header. *)
Lemma decoded_frame_count (content : list byte) (h : gmap string value) :
  _unpack_header (take HEADER_SIZE content) HEADER_FIELDS = Ok h →
  Z.of_nat (length content) < 2 ^ 53 →
  count_frames (Z.of_nat (length content)) (image_offset_of h)
    (hdr h "true_image_size")
  = if bool_decide (hdr h "true_image_size" = 0) then Raise ZeroDivisionError
    else Ok (Z.quot (Z.of_nat (length content) - image_offset_of h)
               (hdr h "true_image_size")).
Proof.
  intros H Hlen. pose proof (decoded_true_image_size _ _ H) as Ht.
  case_bool_decide as Hz.
  - rewrite Hz. unfold count_frames, py_true_div. reflexivity.
  - unfold count_frames. apply int_true_div_quot; [|lia].
    unfold image_offset_of. destruct (5 <=? _); lia.
Qed.

(** X7: for a file of less than [2 ^ 53] bytes whose header decodes, the
    frame count is exact: a true image size of zero raises
    [ZeroDivisionError]; any other gives the number of whole frames
    between the image offset and the end of the file, and these frames lie
    inside the file, when the file reaches the image offset, and the
    negative quotient rounded toward zero when it does not.
    [OverflowError] is not raised. *)
Theorem frame_count_of_file (content : list byte) (h : gmap string value) :
  _unpack_header (take HEADER_SIZE content) HEADER_FIELDS = Ok h →
  Z.of_nat (length content) < 2 ^ 53 →
  let filesize := Z.of_nat (length content) in
  let image_offset := image_offset_of h in
  let true_image_size := hdr h "true_image_size" in
  (true_image_size = 0 →
   count_frames filesize image_offset true_image_size
   = Raise ZeroDivisionError)
  ∧ (true_image_size ≠ 0 →
     ∃ count,
       count_frames filesize image_offset true_image_size = Ok count
       ∧ count = Z.quot (filesize - image_offset) true_image_size
       ∧ (image_offset ≤ filesize →
          0 ≤ count
          ∧ image_offset + count * true_image_size ≤ filesize
            < image_offset + (count + 1) * true_image_size)
       ∧ (filesize < image_offset → count ≤ 0)).
Proof.
  intros H Hlen. cbv zeta.
  pose proof (decoded_true_image_size _ _ H) as Ht.
  rewrite (decoded_frame_count _ _ H Hlen).
  split; intros Hz.
  - by rewrite (bool_decide_eq_true_2 _ Hz).
  - rewrite (bool_decide_eq_false_2 _ Hz). eexists. split; [reflexivity|].
    split; [reflexivity|]. split.
    + intros Hle. rewrite Z.quot_div_nonneg by lia.
      pose proof (Z.div_mod (Z.of_nat (length content) - image_offset_of h)
                    (hdr h "true_image_size") Hz).
      pose proof (Z.mod_pos_bound
                    (Z.of_nat (length content) - image_offset_of h)
                    (hdr h "true_image_size") ltac:(lia)).
      split; [apply Z.div_pos; lia | nia].
    + intros Hlt.
      pose proof (Z.quot_opp_l (Z.of_nat (length content) - image_offset_of h)
                    (hdr h "true_image_size") Hz) as Ho.
      assert (0 ≤ Z.quot (- (Z.of_nat (length content) - image_offset_of h))
                    (hdr h "true_image_size")) by (apply Z.quot_pos; lia).
      lia.
Qed.

End Layout.

(** ** The stages of initialization *)

Section Outcomes.
Context {ndarray : Type}.
Variable mrc_decode : list byte → option ndarray.
Variable np_squeeze : ndarray → ndarray.

Lemma np_dtype_uint_raise (bit_depth : Z) (e : exn) :
  np_dtype_uint bit_depth = Raise e → e = TypeError.
Proof. unfold np_dtype_uint. destruct (bool_decide _); congruence. Qed.

Lemma count_frames_raise (filesize image_offset true_image_size : Z) (e : exn) :
  count_frames filesize image_offset true_image_size = Raise e →
  (e = ZeroDivisionError ∧ true_image_size = 0%Z)
  ∨ (e = OverflowError ∧ true_image_size ≠ 0%Z).
Proof.
  unfold count_frames, py_true_div.
  destruct (Z.eqb_spec true_image_size 0) as [->|Hne].
  - intros [= <-]. by left.
  - destruct (_ =? 0)%Z; [discriminate|].
    destruct (_ <=? _)%Z; [|discriminate]. intros [= <-]. by right.
Qed.

(** The stages of [_do_initialize]: where it stops, with which error,
    and what it has assigned by then. *)
Lemma do_initialize_stages (fs : gmap string (list byte)) (s : SEQDataSet) :
  let r := _do_initialize mrc_decode np_squeeze fs s in
  match fs !! _path s with
  | None => r = (Raise OSError, s)
  | Some content =>
      match _unpack_header (take HEADER_SIZE content) HEADER_FIELDS with
      | Raise e => r = (Raise e, s)
      | Ok header =>
          match np_dtype_uint (hdr header "bit_depth") with
          | Raise _ =>
              r = (Raise (DataSetException
                            (unsupported_bit_depth (hdr header "bit_depth"))),
                   header_assigned s header)
          | Ok dt =>
              let filesize := Z.of_nat (length content) in
              match count_frames filesize (image_offset_of header)
                      (hdr header "true_image_size") with
              | Raise e => r = (Raise e, sizes_assigned s header dt filesize)
              | Ok count =>
                  let s1 := geometry_assigned s header dt filesize count in
                  r = if bool_decide (count ≠ np_prod (_scan_size s)) then
                        (Raise (DataSetException scan_size_mismatch), s1)
                      else
                        _maybe_load_dark_gain mrc_decode np_squeeze fs
                          (set_meta
                             (Some (mk_DataSetMeta
                                      (mk_Shape
                                         (_scan_size s
                                          ++ [hdr header "height";
                                              hdr header "width"]) 2)
                                      dt dt header)) s1)
              end
          end
      end
  end.
Proof.
  cbv zeta.
  destruct (fs !! _path s) as [content|] eqn:Hfs.
  2: { unfold_initialize. by rewrite Hfs. }
  destruct (_unpack_header (take HEADER_SIZE content) HEADER_FIELDS)
    as [header|e] eqn:Hh.
  2: { unfold_initialize. by rewrite Hfs, Hh. }
  destruct (np_dtype_uint (hdr header "bit_depth")) as [dt|e] eqn:Hdt.
  2: { unfold_initialize. rewrite Hfs, Hh.
       rewrite !(decoded_header_int _ _ _ Hh)
         by (apply (bool_decide_unpack _); vm_compute; exact I).
       cbn [mbind result_bind]. rewrite Hdt.
       rewrite (np_dtype_uint_raise _ _ Hdt).
       unfold header_assigned, image_offset_of.
       by destruct (5 <=? _)%Z. }
  destruct (count_frames (Z.of_nat (length content)) (image_offset_of header)
              (hdr header "true_image_size")) as [count|e] eqn:Hc.
  2: { unfold_initialize. rewrite Hfs, Hh.
       rewrite !(decoded_header_int _ _ _ Hh)
         by (apply (bool_decide_unpack _); vm_compute; exact I).
       cbn [mbind result_bind]. rewrite Hdt. revert Hc.
       unfold sizes_assigned, header_assigned, image_offset_of.
       destruct (5 <=? _)%Z; by intros ->. }
  exact (do_initialize_geometry _ _ _ _ _ _ _ _ Hfs Hh Hdt Hc).
Qed.

(** The attributes that [_do_initialize] never assigns. *)
Lemma do_initialize_keeps (fs : gmap string (list byte)) (s : SEQDataSet) :
  let r := _do_initialize mrc_decode np_squeeze fs s in
  _path r.2 = _path s ∧ _scan_size r.2 = _scan_size s ∧ _cores r.2 = _cores s.
Proof.
  pose proof (do_initialize_stages fs s) as Hst. cbv zeta in *.
  destruct (fs !! _path s) as [content|]; [|by rewrite Hst].
  destruct (_unpack_header _ _) as [header|e]; [|by rewrite Hst].
  destruct (np_dtype_uint _) as [dt|e]; [|by rewrite Hst].
  destruct (count_frames _ _ _) as [count|e]; [|by rewrite Hst].
  rewrite Hst. destruct (bool_decide _); [done|].
  rewrite maybe_load_dark_gain_cases. cbn [_path set_meta geometry_assigned
    set_image_count set_filesize set_footer_size set_timestamp_micro
    set_image_offset set_header].
  destruct (_maybe_load_mrc _ _ fs (_path s +:+ ".dark.mrc")); [|done].
  by destruct (_maybe_load_mrc _ _ fs (_path s +:+ ".gain.mrc")).
Qed.

(** X8: [_do_initialize] raises only the errors of its steps, each step
    has its own: [OSError] for a file that cannot be opened,
    [struct.error] for a file shorter than the header, [UnicodeDecodeError]
    for a text field that does not decode, the "unsupported bit depth"
    error, [ZeroDivisionError] for a true image size of zero,
    [OverflowError] from the division, the scan size mismatch, and the
    error of the MRC reader; never a [KeyError], [TypeError] or
    [AttributeError].  When the header cannot be read the object is left as
    it was, and [_path], [_scan_size] and [_cores] are never assigned. *)
Theorem initialize_errors (fs : gmap string (list byte)) (s : SEQDataSet) :
  let r := _do_initialize mrc_decode np_squeeze fs s in
  (_path r.2 = _path s ∧ _scan_size r.2 = _scan_size s
   ∧ _cores r.2 = _cores s)
  ∧ (∀ e, r.1 = Raise e →
       e ∈ [OSError; StructError; UnicodeDecodeError; ZeroDivisionError;
            OverflowError; MrcError; DataSetException scan_size_mismatch]
       ∨ (∃ bit_depth, (bit_depth ∉ [8; 16; 32; 64]%Z)
            ∧ e = DataSetException (unsupported_bit_depth bit_depth)))
  ∧ (fs !! _path s = None → r = (Raise OSError, s))
  ∧ (r.1 = Raise StructError →
     ∃ content, fs !! _path s = Some content
                ∧ (length content < HEADER_SIZE)%nat)
  ∧ (∀ e, r.1 = Raise e → e ∈ [OSError; StructError; UnicodeDecodeError] →
          r.2 = s).
Proof.
  pose proof (do_initialize_keeps fs s) as Hkeep.
  pose proof (do_initialize_stages fs s) as Hst. cbv zeta in *.
  split; [exact Hkeep|]. clear Hkeep.
  destruct (fs !! _path s) as [content|] eqn:Hfs.
  2: { rewrite Hst. cbn. split; [|split; [done|split; [done|done]]].
       intros e [= <-]. left. compute_decide. }
  destruct (_unpack_header (take HEADER_SIZE content) HEADER_FIELDS)
    as [header|e0] eqn:Hh.
  2: { rewrite Hst. cbn.
       pose proof (unpack_loop_raise_any _ _ _ _ _ header_fields_text Hh)
         as He0.
       split; [|split; [done|split; [|done]]].
       - intros e [= <-]. left. destruct He0 as [-> | ->]; compute_decide.
       - intros [= ->]. exists content. split; [done|].
         destruct (decide (length content < HEADER_SIZE)%nat) as [|Hge];
           [done|].
         assert (HEADER_SIZE ≤ length (take HEADER_SIZE content))%nat as Hl
           by (rewrite length_take; lia).
         by pose proof (unpack_header_raise _ _ Hl Hh). }
  destruct (np_dtype_uint (hdr header "bit_depth")) as [dt|e0] eqn:Hdt.
  2: { rewrite Hst. cbn. split; [|split; [done|split; [done|]]].
       - intros e [= <-]. right. exists (hdr header "bit_depth").
         split; [|done]. revert Hdt. unfold np_dtype_uint.
         destruct (bool_decide _) eqn:Eb; [discriminate|].
         by apply bool_decide_eq_false in Eb.
       - intros e [= <-] He. exfalso. revert He. compute_decide. }
  destruct (count_frames _ _ _) as [count|e0] eqn:Hc.
  2: { rewrite Hst. cbn. apply count_frames_raise in Hc.
       split; [|split; [done|split; [|]]].
       - intros e [= <-]. left.
         destruct Hc as [[-> _] | [-> _]]; compute_decide.
       - intros [= ->]. by destruct Hc as [[? _] | [? _]].
       - intros e [= <-] He. exfalso. revert He.
         destruct Hc as [[-> _] | [-> _]]; compute_decide. }
  rewrite Hst. destruct (bool_decide _).
  { cbn. split; [|split; [done|split; [done|]]].
    - intros e [= <-]. left. compute_decide.
    - intros e [= <-] He. exfalso. revert He. compute_decide. }
  rewrite maybe_load_dark_gain_cases. cbn [_path set_meta geometry_assigned
    set_image_count set_filesize set_footer_size set_timestamp_micro
    set_image_offset set_header].
  destruct (_maybe_load_mrc _ _ fs (_path s +:+ ".dark.mrc")) as [dark|e1]
    eqn:E1.
  2: { pose proof (maybe_load_mrc_raise_mrc _ _ _ _ _ E1) as ->.
       cbn. split; [|split; [done|split; [done|]]].
       - intros e [= <-]. left. compute_decide.
       - intros e [= <-] He. exfalso. revert He. compute_decide. }
  destruct (_maybe_load_mrc _ _ fs (_path s +:+ ".gain.mrc")) as [gain|e2]
    eqn:E2.
  2: { pose proof (maybe_load_mrc_raise_mrc _ _ _ _ _ E2) as ->.
       cbn. split; [|split; [done|split; [done|]]].
       - intros e [= <-]. left. compute_decide.
       - intros e [= <-] He. exfalso. revert He. compute_decide. }
  cbn. split; [done|]. split; [done|]. split; done.
Qed.

Lemma np_dtype_uint_ok (bit_depth : Z) (dt : dtype) :
  np_dtype_uint bit_depth = Ok dt →
  bit_depth ∈ [8; 16; 32; 64]%Z ∧ dt = DUInt bit_depth
  ∧ (itemsize dt * 8 = bit_depth)%Z.
Proof.
  unfold np_dtype_uint. destruct (bool_decide _) eqn:Eb; [|discriminate].
  apply bool_decide_eq_true in Eb. intros [= <-]. split; [done|].
  split; [done|]. cbn.
  repeat (apply elem_of_cons in Eb as [-> | Eb]; [reflexivity|]).
  by apply elem_of_nil in Eb.
Qed.

(** What a successful run has established. *)
Lemma do_initialize_ok (fs : gmap string (list byte)) (s s' : SEQDataSet) :
  _do_initialize mrc_decode np_squeeze fs s = (Ok tt, s') →
  ∃ content header dt dark gain,
    fs !! _path s = Some content
    ∧ _unpack_header (take HEADER_SIZE content) HEADER_FIELDS = Ok header
    ∧ np_dtype_uint (hdr header "bit_depth") = Ok dt
    ∧ count_frames (Z.of_nat (length content)) (image_offset_of header)
        (hdr header "true_image_size") = Ok (np_prod (_scan_size s))
    ∧ _maybe_load_mrc mrc_decode np_squeeze fs (_path s +:+ ".dark.mrc")
      = Ok dark
    ∧ _maybe_load_mrc mrc_decode np_squeeze fs (_path s +:+ ".gain.mrc")
      = Ok gain
    ∧ s' = set_gain gain
             (set_dark dark
                (set_meta
                   (Some (mk_DataSetMeta
                            (mk_Shape
                               (_scan_size s
                                ++ [hdr header "height"; hdr header "width"])
                               2)
                            dt dt header))
                   (geometry_assigned s header dt
                      (Z.of_nat (length content)) (np_prod (_scan_size s))))).
Proof.
  intros H. pose proof (do_initialize_stages fs s) as Hst. cbv zeta in Hst.
  rewrite H in Hst.
  destruct (fs !! _path s) as [content|] eqn:Hfs; [|discriminate].
  destruct (_unpack_header (take HEADER_SIZE content) HEADER_FIELDS)
    as [header|e] eqn:Hh; [|discriminate].
  destruct (np_dtype_uint (hdr header "bit_depth")) as [dt|e] eqn:Hdt;
    [|discriminate].
  destruct (count_frames (Z.of_nat (length content)) (image_offset_of header)
              (hdr header "true_image_size")) as [count|e] eqn:Hc;
    [|discriminate].
  destruct (bool_decide _) eqn:Eb; [discriminate|].
  apply bool_decide_eq_false in Eb. apply dec_stable in Eb. subst count.
  rewrite maybe_load_dark_gain_cases in Hst.
  cbn [_path set_meta geometry_assigned set_image_count set_filesize
       set_footer_size set_timestamp_micro set_image_offset set_header]
    in Hst.
  destruct (_maybe_load_mrc mrc_decode np_squeeze fs (_path s +:+ ".dark.mrc"))
    as [dark|] eqn:Hd; [|discriminate].
  destruct (_maybe_load_mrc mrc_decode np_squeeze fs (_path s +:+ ".gain.mrc"))
    as [gain|] eqn:Hg; [|discriminate].
  injection Hst as ->. by exists content, header, dt, dark, gain.
Qed.

(** X9: after a successful initialization every attribute of the dataset
    is assigned from the file: the decoded header, the image offset and
    the timestamp flag that go with its version, the size of the file, the
    frame count, which is both what the file holds after the image offset
    and the product of the scan size, the metadata with the unsigned
    data type of the bit depth, and the corrections as loaded. *)
Theorem initialize_postcondition (fs : gmap string (list byte))
    (s s' : SEQDataSet) :
  _do_initialize mrc_decode np_squeeze fs s = (Ok tt, s') →
  ∃ content header,
    fs !! _path s = Some content
    ∧ _unpack_header (take HEADER_SIZE content) HEADER_FIELDS = Ok header
    ∧ _header s' = Some header
    ∧ _image_offset s'
      = Some (if (5 <=? hdr header "version")%Z then 8192 else 1024)%Z
    ∧ _timestamp_micro s' = Some (5 <=? hdr header "version")%Z
    ∧ _filesize s' = Some (Z.of_nat (length content))
    ∧ hdr header "bit_depth" ∈ [8; 16; 32; 64]%Z
    ∧ _image_count s' = Some (np_prod (_scan_size s))
    ∧ count_frames (Z.of_nat (length content))
        (if (5 <=? hdr header "version")%Z then 8192 else 1024)%Z
        (hdr header "true_image_size") = Ok (np_prod (_scan_size s))
    ∧ _meta s'
      = Some (mk_DataSetMeta
                (mk_Shape
                   (_scan_size s ++ [hdr header "height"; hdr header "width"])
                   2)
                (DUInt (hdr header "bit_depth"))
                (DUInt (hdr header "bit_depth")) header)
    ∧ Ok (_dark s')
      = _maybe_load_mrc mrc_decode np_squeeze fs (_path s +:+ ".dark.mrc")
    ∧ Ok (_gain s')
      = _maybe_load_mrc mrc_decode np_squeeze fs (_path s +:+ ".gain.mrc").
Proof.
  intros H.
  destruct (do_initialize_ok _ _ _ H)
    as (content & header & dt & dark & gain & Hfs & Hh & Hdt & Hc & Hd & Hg
        & ->).
  apply np_dtype_uint_ok in Hdt as (Hbd & -> & _).
  exists content, header. by rewrite Hd, Hg.
Qed.

(** X10: initializing an initialized dataset again, the files unchanged,
    succeeds and changes nothing. *)
Theorem initialize_idempotent (fs : gmap string (list byte))
    (s s' : SEQDataSet) :
  _do_initialize mrc_decode np_squeeze fs s = (Ok tt, s') →
  _do_initialize mrc_decode np_squeeze fs s' = (Ok tt, s').
Proof.
  intros H.
  destruct (do_initialize_ok _ _ _ H)
    as (content & header & dt & dark & gain & Hfs & Hh & Hdt & Hc & Hd & Hg
        & ->).
  match goal with
  | |- _do_initialize _ _ _ ?s1 = _ =>
      pose proof (do_initialize_stages fs s1) as Hst
  end.
  cbv zeta in Hst.
  cbn [_path _scan_size set_gain set_dark set_meta geometry_assigned
       set_image_count set_filesize set_footer_size set_timestamp_micro
       set_image_offset set_header] in Hst.
  rewrite Hfs, Hh, Hdt, Hc in Hst.
  rewrite bool_decide_eq_false_2 in Hst by (intros Hne; by apply Hne).
  rewrite Hst, maybe_load_dark_gain_cases.
  cbn [_path set_gain set_dark set_meta geometry_assigned
       set_image_count set_filesize set_footer_size set_timestamp_micro
       set_image_offset set_header].
  rewrite Hd, Hg. destruct s. reflexivity.
Qed.

Lemma shape_of_scan (scan_size : list Z) (height width : Z) :
  shape_nav (mk_Shape (scan_size ++ [height; width]) 2) = scan_size
  ∧ shape_sig (mk_Shape (scan_size ++ [height; width]) 2) = [height; width].
Proof.
  unfold shape_nav, shape_sig. cbn [shape_dims sig_dims].
  rewrite length_app. cbn [length].
  replace (length scan_size + 2 - 2)%nat with (length scan_size) by lia.
  by rewrite take_app_length, drop_app_length.
Qed.

(** X11: the file set of an initialized dataset is the one file at the
    dataset's path, holding the frames 0 up to the frame count, which
    start after a file header of the image offset, have no frame header,
    are made of height times width pixels of the data type of the bit
    depth, and are each followed by the footer. *)
Theorem fileset_of_initialized (fs : gmap string (list byte))
    (s s' : SEQDataSet) :
  _do_initialize mrc_decode np_squeeze fs s = (Ok tt, s') →
  ∃ header footer,
    _header s' = Some header
    ∧ _footer_size s' = Some footer
    ∧ (footer = hdr header "true_image_size"
                - hdr header "width" * hdr header "height"
                  * (hdr header "bit_depth" / 8))%Z
    ∧ _get_fileset s'
      = Ok (mk_SEQFileSet
              [ mk_LocalFile (_path s) 0 (Some (np_prod (_scan_size s)))
                  (DUInt (hdr header "bit_depth"))
                  [hdr header "height"; hdr header "width"]
                  (Some footer) 0
                  (Some (if (5 <=? hdr header "version")%Z
                         then 8192 else 1024)%Z) ]
              (Some footer)).
Proof.
  intros H.
  destruct (do_initialize_ok _ _ _ H)
    as (content & header & dt & dark & gain & Hfs & Hh & Hdt & Hc & Hd & Hg
        & ->).
  apply np_dtype_uint_ok in Hdt as (Hbd & -> & _).
  eexists header, _. split; [reflexivity|]. split; [reflexivity|].
  split; [reflexivity|].
  unfold _get_fileset, meta_attr. cbn [_meta set_gain set_dark set_meta].
  cbn [mbind result_bind fmap result_fmap meta_raw_dtype meta_shape].
  by rewrite (proj2 (shape_of_scan _ _ _)).
Qed.

End Outcomes.

(** ** Format detection, case by case *)

Section Detection.
Local Open Scope Z_scope.

(** X12: what [detect_params] returns and raises.  It returns [False] for
    a file that cannot be opened, for a header with a text field that does
    not decode, and for a magic number other than 0xFEED, and in no other
    case; it returns the path and the frame count, printed in decimal,
    when the magic number is 0xFEED and the frame count can be computed;
    it raises [struct.error] for a file shorter than the header,
    [ZeroDivisionError] for a true image size of zero, and [OverflowError]
    only for a file of [2 ^ 53] bytes or more. *)
Theorem detect_params_cases (fs : gmap string (list byte)) (path : string) :
  match detect_params fs path with
  | Ok DetectFalse =>
      fs !! path = None
      ∨ _read_header fs path HEADER_FIELDS = Raise UnicodeDecodeError
      ∨ (∃ header, _read_header fs path HEADER_FIELDS = Ok header
                   ∧ hdr header "magic" ≠ 0xFEED)
  | Ok (DetectParams p scan_size) =>
      p = path
      ∧ ∃ content header count,
          fs !! path = Some content
          ∧ _read_header fs path HEADER_FIELDS = Ok header
          ∧ hdr header "magic" = 0xFEED
          ∧ count_frames (Z.of_nat (length content)) (image_offset_of header)
              (hdr header "true_image_size") = Ok count
          ∧ scan_size = pretty count
  | Raise e =>
      ∃ content,
        fs !! path = Some content
        ∧ ((e = StructError ∧ (length content < HEADER_SIZE)%nat)
           ∨ (∃ header,
                _read_header fs path HEADER_FIELDS = Ok header
                ∧ hdr header "magic" = 0xFEED
                ∧ ((e = ZeroDivisionError ∧ hdr header "true_image_size" = 0)
                   ∨ (e = OverflowError
                      ∧ 2 ^ 53 ≤ Z.of_nat (length content)))))
  end.
Proof.
  unfold detect_params, detect_params_try, _read_header, os_stat_st_size.
  destruct (fs !! path) as [content|] eqn:Hfs; [|by left].
  destruct (_unpack_header (take HEADER_SIZE content) HEADER_FIELDS)
    as [header|e] eqn:Hh.
  2: { destruct (unpack_loop_raise_any _ _ _ _ _ header_fields_text Hh)
         as [-> | ->]; cbn; [|by right; left].
       exists content. split; [done|]. left. split; [done|].
       destruct (decide (length content < HEADER_SIZE)%nat) as [|Hge];
         [done|].
       assert (HEADER_SIZE ≤ length (take HEADER_SIZE content))%nat as Hl
         by (rewrite length_take; lia).
       by pose proof (unpack_header_raise _ _ Hl Hh). }
  cbn [mbind result_bind]. unfold _get_image_offset.
  rewrite !(decoded_header_int _ _ _ Hh)
    by (apply (bool_decide_unpack _); vm_compute; exact I).
  cbn [mbind result_bind].
  case_bool_decide as Hm; [right; right; by exists header|].
  replace (if 5 <=? hdr header "version" then Ok 8192 else Ok 1024)
    with (Ok (A := Z) (image_offset_of header))
    by (unfold image_offset_of; by destruct (5 <=? _)).
  cbn [mbind result_bind].
  destruct (count_frames _ _ _) as [count|e] eqn:Hc; cbn.
  - split; [done|]. by exists content, header, count.
  - assert (e ≠ OSError ∧ e ≠ UnicodeDecodeError
            ∧ ((e = ZeroDivisionError ∧ hdr header "true_image_size" = 0)
               ∨ (e = OverflowError ∧ 2 ^ 53 ≤ Z.of_nat (length content))))
      as (Hn1 & Hn2 & He).
    { destruct (Z_lt_le_dec (Z.of_nat (length content)) (2 ^ 53)) as [Hlt|Hge].
      - rewrite (decoded_frame_count _ _ Hh Hlt) in Hc.
        case_bool_decide as Hz; [|discriminate]. injection Hc as <-.
        split; [done|]. split; [done|]. by left.
      - apply count_frames_raise in Hc as [[-> Hz] | [-> Hz]].
        + split; [done|]. split; [done|]. by left.
        + split; [done|]. split; [done|]. by right. }
    destruct e; try done; exists content; split; try done; right;
      by exists header.
Qed.

End Detection.

(** ** More on initialization *)

Section Initialized.
Local Open Scope Z_scope.
Context {ndarray : Type}.
Variable mrc_decode : list byte → option ndarray.
Variable np_squeeze : ndarray → ndarray.
Variable get_for_range : SEQFileSet → Z → Z → SEQFileSet.

Lemma np_prod_single (count : Z) :
  - 2 ^ 63 ≤ count < 2 ^ 63 → np_prod [count] = count.
Proof.
  intros H. rewrite np_prod_exact; cbn [list_prod]; lia.
Qed.

(** X13: the frame count that [detect_params] suggests, taken as a scan
    size of one dimension, is accepted by the initialization of the same
    file: the scan size mismatch is not raised, and what can still fail is
    the bit depth and the reading of the correction files. *)
Theorem detected_scan_size_fits (fs : gmap string (list byte))
    (path scan_size : string) (count cores : Z) :
  detect_params fs path = Ok (DetectParams path scan_size) →
  scan_size = pretty count →
  - 2 ^ 63 ≤ count < 2 ^ 63 →
  let r := _do_initialize mrc_decode np_squeeze fs
             (__init__ path [count] cores) in
  r.1 ≠ Raise (DataSetException scan_size_mismatch)
  ∧ (r.1 = Ok tt
     ∨ r.1 = Raise MrcError
     ∨ ∃ header, _read_header fs path HEADER_FIELDS = Ok header
                 ∧ (hdr header "bit_depth" ∉ [8; 16; 32; 64])
                 ∧ r.1 = Raise (DataSetException
                                  (unsupported_bit_depth
                                     (hdr header "bit_depth"))))
  ∧ (r.1 = Ok tt → _image_count r.2 = Some count
                   ∧ shape_nav <$> shape r.2 = Ok [count]).
Proof.
  intros Hdet Hsc Hrange.
  pose proof (detect_params_false fs path) as (Hmiss & Hdec & Hmagic).
  assert (∃ content header,
            fs !! path = Some content
            ∧ _unpack_header (take HEADER_SIZE content) HEADER_FIELDS
              = Ok header
            ∧ count_frames (Z.of_nat (length content))
                (image_offset_of header) (hdr header "true_image_size")
              = Ok count) as (content & header & Hfs & Hh & Hc).
  { revert Hdet.
    unfold detect_params, detect_params_try, _read_header, os_stat_st_size.
    destruct (fs !! path) as [content|]; [|discriminate].
    destruct (_unpack_header (take HEADER_SIZE content) HEADER_FIELDS)
      as [header|e] eqn:Hh; [|by destruct e].
    cbn [mbind result_bind]. unfold _get_image_offset.
    rewrite !(decoded_header_int _ _ _ Hh)
      by (apply (bool_decide_unpack _); vm_compute; exact I).
    cbn [mbind result_bind].
    case_bool_decide; [discriminate|].
    replace (if 5 <=? hdr header "version" then Ok 8192 else Ok 1024)
      with (Ok (A := Z) (image_offset_of header))
      by (unfold image_offset_of; by destruct (5 <=? _)).
    cbn [mbind result_bind].
    destruct (count_frames _ _ _) as [count'|e] eqn:Hc; cbn;
      [|by destruct e].
    intros [= Hp]. rewrite Hsc in Hp. apply (inj pretty) in Hp. subst count'.
    by exists content, header. }
  cbv zeta.
  pose proof (do_initialize_stages mrc_decode np_squeeze fs
                (__init__ path [count] cores)) as Hst.
  cbv zeta in Hst. cbn [_path _scan_size __init__] in Hst.
  rewrite Hfs, Hh, Hc in Hst. unfold _read_header. rewrite Hfs, Hh.
  destruct (np_dtype_uint (hdr header "bit_depth")) as [dt|e] eqn:Hdt.
  2: { rewrite Hst. cbn [fst snd]. split; [|split].
       - unfold unsupported_bit_depth, scan_size_mismatch. by intros [= Hx].
       - right. right. exists header. split; [done|]. split; [|done].
         revert Hdt. unfold np_dtype_uint.
         case_bool_decide; [discriminate | done].
       - discriminate. }
  rewrite np_prod_single in Hst by done.
  rewrite bool_decide_eq_false_2 in Hst by (intros Hne; by apply Hne).
  rewrite Hst, maybe_load_dark_gain_cases.
  cbn [_path set_meta geometry_assigned set_image_count set_filesize
       set_footer_size set_timestamp_micro set_image_offset set_header
       __init__].
  destruct (_maybe_load_mrc _ _ fs (path +:+ ".dark.mrc")) as [dark|e1] eqn:E1.
  2: { pose proof (maybe_load_mrc_raise_mrc _ _ _ _ _ E1) as ->. cbn.
       split; [done|]. split; [by right; left | done]. }
  destruct (_maybe_load_mrc _ _ fs (path +:+ ".gain.mrc")) as [gain|e2] eqn:E2.
  2: { pose proof (maybe_load_mrc_raise_mrc _ _ _ _ _ E2) as ->. cbn.
       split; [done|]. split; [by right; left | done]. }
  cbn. split; [done|]. split; [by left|]. intros _. split; [done|].
  unfold shape, meta_attr. cbn. done.
Qed.

End Initialized.

Section InitializedDataset.
Local Open Scope Z_scope.
Context {ndarray : Type}.
Variable mrc_decode : list byte → option ndarray.
Variable np_squeeze : ndarray → ndarray.
Variable get_for_range : SEQFileSet → Z → Z → SEQFileSet.

(** X14: each correction file is loaded on its own.  A slot is [None]
    when its file is absent and the squeezed data of the file when the MRC
    reader decodes it; a file that is present and cannot be decoded makes
    the loading raise.  The dark frame is loaded first: when it fails
    nothing is assigned and the gain map is not read; when the gain map
    fails the dark frame is already assigned. *)
Theorem correction_files_loaded (fs : gmap string (list byte))
    (s : SEQDataSet) :
  let load := _maybe_load_mrc mrc_decode np_squeeze fs in
  let dark_path := _path s +:+ ".dark.mrc" in
  let gain_path := _path s +:+ ".gain.mrc" in
  let r := _maybe_load_dark_gain mrc_decode np_squeeze fs s in
  (∀ path,
     load path = match fs !! path with
                 | None => Ok None
                 | Some content =>
                     match mrc_decode content with
                     | Some data => Ok (Some (np_squeeze data))
                     | None => Raise MrcError
                     end
                 end)
  ∧ (r.1 = Ok tt ↔ is_ok (load dark_path) = true
                   ∧ is_ok (load gain_path) = true)
  ∧ (r.1 = Ok tt →
     _dark r.2 = np_squeeze <$> (fs !! dark_path ≫= mrc_decode)
     ∧ _gain r.2 = np_squeeze <$> (fs !! gain_path ≫= mrc_decode)
     ∧ (_dark r.2 = None ↔ fs !! dark_path = None)
     ∧ (_gain r.2 = None ↔ fs !! gain_path = None)
     ∧ get_correction_data r.2
       = mk_CorrectionSet (np_squeeze <$> (fs !! dark_path ≫= mrc_decode))
           (np_squeeze <$> (fs !! gain_path ≫= mrc_decode)))
  ∧ (∀ e, load dark_path = Raise e → r = (Raise MrcError, s))
  ∧ (∀ dark e, load dark_path = Ok dark → load gain_path = Raise e →
               r = (Raise MrcError, set_dark dark s)).
Proof.
  cbv zeta. rewrite maybe_load_dark_gain_cases.
  split; [intros path; apply maybe_load_mrc_cases|].
  pose proof (maybe_load_mrc_cases mrc_decode np_squeeze fs
                (_path s +:+ ".dark.mrc")) as Hd.
  pose proof (maybe_load_mrc_cases mrc_decode np_squeeze fs
                (_path s +:+ ".gain.mrc")) as Hg.
  destruct (_maybe_load_mrc _ _ fs (_path s +:+ ".dark.mrc")) as [dark|e1]
    eqn:E1.
  2: { pose proof (maybe_load_mrc_raise_mrc _ _ _ _ _ E1) as ->. cbn.
       split; [split; [discriminate | by intros [? _]]|].
       split; [discriminate|]. split; [done|]. discriminate. }
  destruct (_maybe_load_mrc _ _ fs (_path s +:+ ".gain.mrc")) as [gain|e2]
    eqn:E2.
  2: { pose proof (maybe_load_mrc_raise_mrc _ _ _ _ _ E2) as ->. cbn.
       split; [split; [discriminate | by intros [_ ?]]|].
       split; [discriminate|]. split; [discriminate|].
       by intros ?? [= <-] _. }
  cbn. split; [done|]. split; [|split; discriminate].
  intros _.
  destruct (fs !! (_path s +:+ ".dark.mrc")) as [cd|]; cbn;
    [destruct (mrc_decode cd); [|discriminate]|];
    injection Hd as ->;
    (destruct (fs !! (_path s +:+ ".gain.mrc")) as [cg|]; cbn;
     [destruct (mrc_decode cg); [|discriminate]|];
     injection Hg as ->); cbn; repeat split; done.
Qed.

(** X15: the shape and the data type of a dataset are there once the
    scan size has been checked: a new dataset has them after an
    initialization that succeeded or that failed in the MRC reader, and
    raises [AttributeError] for them, for its file set and for its
    partitions before initialization and after any other failure. *)
Theorem shape_needs_initialization (fs : gmap string (list byte))
    (path : string) (scan_size : list Z) (cores : Z) :
  let s0 : @SEQDataSet ndarray := __init__ path scan_size cores in
  let r := _do_initialize mrc_decode np_squeeze fs s0 in
  let unavailable (s : SEQDataSet) :=
    shape s = Raise (AttributeError "shape")
    ∧ dtype_of s = Raise (AttributeError "raw_dtype")
    ∧ _get_fileset s = Raise (AttributeError "raw_dtype")
    ∧ get_partitions get_for_range s = Raise (AttributeError "shape") in
  unavailable s0
  ∧ (r.1 = Ok tt ∨ r.1 = Raise MrcError →
     ∃ header,
       _header r.2 = Some header
       ∧ shape r.2
         = Ok (mk_Shape (scan_size
                         ++ [hdr header "height"; hdr header "width"]) 2)
       ∧ dtype_of r.2 = Ok (DUInt (hdr header "bit_depth")))
  ∧ (∀ e, r.1 = Raise e → e ≠ MrcError → unavailable r.2).
Proof.
  cbv zeta.
  assert (∀ s : @SEQDataSet ndarray, _meta s = None →
            shape s = Raise (AttributeError "shape")
            ∧ dtype_of s = Raise (AttributeError "raw_dtype")
            ∧ _get_fileset s = Raise (AttributeError "raw_dtype")
            ∧ get_partitions get_for_range s
              = Raise (AttributeError "shape")) as Hun.
  { intros s Hm.
    unfold get_partitions, _get_fileset, shape, dtype_of, meta_attr.
    by rewrite Hm. }
  split; [by apply Hun|].
  pose proof (do_initialize_stages mrc_decode np_squeeze fs
                (__init__ path scan_size cores)) as Hst.
  cbv zeta in Hst. cbn [_path _scan_size __init__] in Hst.
  destruct (fs !! path) as [content|].
  2: { rewrite Hst. cbn [fst snd]. split; [by intros [|]|].
       intros e _ _. by apply Hun. }
  destruct (_unpack_header (take HEADER_SIZE content) HEADER_FIELDS)
    as [header|e0] eqn:Hh.
  2: { rewrite Hst. cbn [fst snd]. split.
       - intros [|[= ->]]; [done|].
         by destruct (unpack_loop_raise_any _ _ _ _ _ header_fields_text Hh).
       - intros e _ _. by apply Hun. }
  destruct (np_dtype_uint (hdr header "bit_depth")) as [dt|e0] eqn:Hdt.
  2: { rewrite Hst. cbn [fst snd]. split; [by intros [|]|].
       intros e _ _. by apply Hun. }
  apply np_dtype_uint_ok in Hdt as (_ & -> & _).
  destruct (count_frames _ _ _) as [count|e0] eqn:Hc.
  2: { rewrite Hst. cbn [fst snd]. split.
       - intros [|[= ->]]; [done|].
         by apply count_frames_raise in Hc as [[? _]|[? _]].
       - intros e _ _. by apply Hun. }
  rewrite Hst. case_bool_decide.
  { cbn [fst snd]. split; [by intros [|]|]. intros e _ _. by apply Hun. }
  rewrite maybe_load_dark_gain_cases.
  cbn [_path set_meta geometry_assigned set_image_count set_filesize
       set_footer_size set_timestamp_micro set_image_offset set_header
       __init__].
  destruct (_maybe_load_mrc _ _ fs (path +:+ ".dark.mrc")) as [dark|e1] eqn:E1.
  2: { pose proof (maybe_load_mrc_raise_mrc _ _ _ _ _ E1) as ->. cbn.
       split; [|by intros e [= <-]]. intros _. by exists header. }
  destruct (_maybe_load_mrc _ _ fs (path +:+ ".gain.mrc")) as [gain|e2] eqn:E2.
  2: { pose proof (maybe_load_mrc_raise_mrc _ _ _ _ _ E2) as ->. cbn.
       split; [|by intros e [= <-]]. intros _. by exists header. }
  cbn. split; [|discriminate]. intros _. by exists header.
Qed.

(** X16: on an initialized dataset [check_valid] finds the header: it
    returns exactly when the magic number is 0xFEED, the compression
    format 0 and the image format 100, and otherwise raises one of its
    three errors; initialization itself has checked none of the three. *)
Theorem check_valid_of_initialized (fs : gmap string (list byte))
    (s s' : SEQDataSet) :
  _do_initialize mrc_decode np_squeeze fs s = (Ok tt, s') →
  ∃ header,
    _header s' = Some header
    ∧ (check_valid s' = Ok tt
       ↔ hdr header "magic" = 0xFEED
         ∧ hdr header "compression_format" = 0
         ∧ hdr header "image_format" = 100)
    ∧ (∀ e, check_valid s' = Raise e →
         e ∈ [DataSetException unrecognized_format;
              DataSetException only_uncompressed;
              DataSetException non_monochrome]).
Proof.
  intros H.
  destruct (do_initialize_ok _ _ _ _ _ H)
    as (content & header & dt & dark & gain & Hfs & Hh & Hdt & Hc & Hd & Hg
        & ->).
  exists header. split; [reflexivity|].
  unfold check_valid.
  cbn [_header set_gain set_dark set_meta geometry_assigned set_image_count
       set_filesize set_footer_size set_timestamp_micro set_image_offset
       set_header].
  rewrite !(decoded_header_int _ _ _ Hh)
    by (apply (bool_decide_unpack _); vm_compute; exact I).
  cbn [mbind result_bind].
  case_bool_decide as Hm.
  { split; [split; [discriminate | by intros [? _]]|].
    intros e [= <-]. compute_decide. }
  cbn [mbind result_bind].
  case_bool_decide as Hcf.
  { split; [split; [discriminate | by intros (_ & ? & _)]|].
    intros e [= <-]. compute_decide. }
  cbn [mbind result_bind].
  case_bool_decide as Hif.
  { split; [split; [discriminate | by intros (_ & _ & ?)]|].
    intros e [= <-]. compute_decide. }
  split; [|discriminate]. done.
Qed.

End InitializedDataset.

(** ** From the file to the tasks *)

Section Planned.
Local Open Scope Z_scope.
Context {ndarray : Type}.
Variable mrc_decode : list byte → option ndarray.
Variable np_squeeze : ndarray → ndarray.
Variable get_for_range : SEQFileSet → Z → Z → SEQFileSet.

(** The partitions of a dataset with metadata and file size. *)
Lemma get_partitions_plan (s : @SEQDataSet ndarray) (meta : DataSetMeta)
    (filesize : Z) :
  _meta s = Some meta →
  _filesize s = Some filesize →
  ∃ fileset,
    _get_fileset s = Ok fileset
    ∧ get_partitions get_for_range s
      = Ok ((λ '(part_slice, start, stop),
               mk_BasePartition (Some meta)
                 (get_for_range fileset start stop) part_slice start
                 (stop - start))
            <$> make_slices (meta_shape meta)
                  (Z.max (_cores s) (filesize / (512 * 1024 * 1024)))).
Proof.
  intros Hm Hf.
  unfold get_partitions, shape, _get_num_partitions, _get_fileset, meta_attr.
  rewrite Hm, Hf. cbn [mbind result_bind fmap result_fmap].
  eexists. split; reflexivity.
Qed.

Lemma initialized_meta (fs : gmap string (list byte)) (s s' : SEQDataSet) :
  _do_initialize mrc_decode np_squeeze fs s = (Ok tt, s') →
  ∃ (content : list byte) header,
    _header s' = Some header
    ∧ _meta s'
      = Some (mk_DataSetMeta
                (mk_Shape
                   (_scan_size s ++ [hdr header "height"; hdr header "width"])
                   2)
                (DUInt (hdr header "bit_depth"))
                (DUInt (hdr header "bit_depth")) header)
    ∧ _filesize s' = Some (Z.of_nat (length content))
    ∧ _image_count s' = Some (np_prod (_scan_size s))
    ∧ _cores s' = _cores s.
Proof.
  intros H.
  destruct (do_initialize_ok _ _ _ _ _ H)
    as (content & header & dt & dark & gain & Hfs & Hh & Hdt & Hc & Hd & Hg
        & ->).
  apply np_dtype_uint_ok in Hdt as (_ & -> & _).
  by exists content, header.
Qed.

(** X17: the partitions of an initialized dataset cover the frames of the
    file.  With a scan size whose product fits 64 bits and at least one
    core, [get_partitions] yields [max(cores, filesize // 512 MiB)]
    partitions whose frame ranges follow one another from frame 0 to the
    frame count that initialization derived from the file, every frame in
    exactly one of them; each partition carries the metadata of the
    dataset and the file set of the dataset restricted to its range. *)
Theorem partitions_of_initialized (fs : gmap string (list byte))
    (s s' : SEQDataSet) :
  _do_initialize mrc_decode np_squeeze fs s = (Ok tt, s') →
  0 ≤ list_prod (_scan_size s) < 2 ^ 63 →
  1 ≤ _cores s →
  ∃ parts fileset filesize count,
    get_partitions get_for_range s' = Ok parts
    ∧ _get_fileset s' = Ok fileset
    ∧ _filesize s' = Some filesize
    ∧ _image_count s' = Some count
    ∧ count = list_prod (_scan_size s)
    ∧ length parts
      = Z.to_nat (Z.max (_cores s) (filesize / (512 * 1024 * 1024)))
    ∧ chain 0 (partition_range <$> parts) count
    ∧ (∀ f, 0 ≤ f < count → cover_count (partition_range <$> parts) f = 1%nat)
    ∧ (∀ f, f < 0 ∨ count ≤ f →
            cover_count (partition_range <$> parts) f = 0%nat)
    ∧ Forall (λ p, part_meta p = _meta s'
                   ∧ part_fileset p
                     = get_for_range fileset (start_frame p)
                         (start_frame p + num_frames p)) parts.
Proof.
  intros H Hprod Hcores.
  destruct (initialized_meta _ _ _ H)
    as (content & header & Hhd & Hm & Hf & Hic & Hco).
  destruct (get_partitions_plan _ _ _ Hm Hf) as (fileset & Hfset & Hparts).
  rewrite Hco in Hparts. cbn [meta_shape] in Hparts.
  set (shp := mk_Shape (_scan_size s
                        ++ [hdr header "height"; hdr header "width"]) 2) in *.
  set (n := Z.max (_cores s)
              (Z.of_nat (length content) / (512 * 1024 * 1024))) in *.
  assert (nav_size shp = list_prod (_scan_size s)) as Hnav.
  { unfold nav_size, shp. by rewrite (proj1 (shape_of_scan _ _ _)). }
  assert (chain 0 (frame_ranges (make_slices shp n))
            (list_prod (_scan_size s))) as Hchain.
  { rewrite <- Hnav. apply make_slices_chain; lia. }
  rewrite np_prod_exact in Hic by lia.
  eexists _, fileset, _, _. split; [exact Hparts|].
  split; [exact Hfset|]. split; [exact Hf|]. split; [exact Hic|].
  split; [reflexivity|].
  assert (partition_range
          <$> ((λ '(part_slice, start, stop),
                  mk_BasePartition (_meta s')
                    (get_for_range fileset start stop) part_slice start
                    (stop - start)) <$> make_slices shp n)
          = frame_ranges (make_slices shp n)) as Hranges.
  { unfold frame_ranges. rewrite <- list_fmap_compose.
    apply list_fmap_ext. intros _ [[sl start] stop] _. cbn.
    unfold partition_range. cbn. f_equal. lia. }
  rewrite Hm in Hranges. rewrite Hranges.
  split; [|split; [exact Hchain|split; [|split]]].
  - rewrite length_fmap. unfold make_slices.
    by rewrite length_fmap, length_seqZ.
  - intros f Hf'. exact (chain_cover_once _ _ _ _ Hchain Hf').
  - intros f Hf'. exact (chain_cover_outside _ _ _ _ Hchain Hf').
  - rewrite Forall_fmap. apply Forall_forall.
    intros [[sl start] stop] _. cbn. rewrite Hm. split; [done|].
    f_equal. lia.
Qed.

(** X18: the job over an initialized dataset.  Its result shape is the
    height and the width of the header, whatever the scan size; it has
    one task for each partition of the dataset, in the order of the
    partitions; and the accumulator of every task has the result shape of
    the job. *)
Theorem job_of_initialized (fs : gmap string (list byte))
    (s s' : SEQDataSet) :
  _do_initialize mrc_decode np_squeeze fs s = (Ok tt, s') →
  let job := mk_SumFramesJob s' in
  ∃ header parts,
    _header s' = Some header
    ∧ get_result_shape job = Ok [hdr header "height"; hdr header "width"]
    ∧ get_partitions get_for_range s' = Ok parts
    ∧ get_tasks get_for_range job = Ok (mk_SumFramesTask <$> parts)
    ∧ Forall (λ task, task_sig_shape task = get_result_shape job)
        (mk_SumFramesTask <$> parts).
Proof.
  intros H.
  destruct (initialized_meta _ _ _ H)
    as (content & header & Hhd & Hm & Hf & Hic & Hco).
  destruct (get_partitions_plan _ _ _ Hm Hf) as (fileset & Hfset & Hparts).
  cbv zeta. exists header. eexists. split; [exact Hhd|].
  assert (get_result_shape (mk_SumFramesJob s')
          = Ok [hdr header "height"; hdr header "width"]) as Hrs.
  { unfold get_result_shape, shape, meta_attr. cbn [job_dataset].
    rewrite Hm. cbn [fmap result_fmap meta_shape].
    by rewrite (proj2 (shape_of_scan _ _ _)). }
  split; [exact Hrs|]. split; [exact Hparts|].
  split; [unfold get_tasks; cbn [job_dataset]; by rewrite Hparts|].
  rewrite Hrs, Forall_fmap, Forall_fmap. apply Forall_forall.
  intros [[sl start] stop] _. unfold task_sig_shape, compose.
  cbn [task_partition part_meta meta_shape].
  by rewrite (proj2 (shape_of_scan _ _ _)).
Qed.

End Planned.

(** ** The accumulator of a task *)

Section Accumulator.
Context {scalar : Type}.
Variable zero : scalar.
Variable convert : dtype → dtype → scalar → scalar.
Variable add : dtype → scalar → scalar → scalar.

Lemma iadd_loop_length (f : scalar → scalar → scalar)
    (acc : list scalar) (updates : list (nat * scalar)) :
  length (foldl (λ (acc : list scalar) '(i, x),
                   match acc !! i with
                   | Some p => <[i := f p x]> acc
                   | None => acc
                   end) acc updates)
  = length acc.
Proof.
  revert acc. induction updates as [|[i x] updates IH]; intros acc; [done|].
  cbn [foldl]. rewrite IH. destruct (acc !! i); [|done].
  by rewrite length_insert.
Qed.

Lemma iadd_loop_untouched (f : scalar → scalar → scalar)
    (acc : list scalar) (updates : list (nat * scalar)) (i : nat) :
  i ∉ updates.*1 →
  foldl (λ (acc : list scalar) '(i, x),
           match acc !! i with
           | Some p => <[i := f p x]> acc
           | None => acc
           end) acc updates !! i
  = acc !! i.
Proof.
  revert acc. induction updates as [|[j x] updates IH]; intros acc Hi; [done|].
  cbn in Hi. apply not_elem_of_cons in Hi as [Hne Hi].
  cbn [foldl]. rewrite IH by done. destruct (acc !! j); [|done].
  by rewrite list_lookup_insert_ne.
Qed.

Lemma iadd_length (target source t' : @sig_array scalar) (index : list nat) :
  iadd convert add target index source = Ok t' →
  length (arr_data t') = length (arr_data target).
Proof.
  unfold iadd. destruct (can_cast_same_kind _ _); [|discriminate].
  intros [= <-]. cbn [arr_data]. apply iadd_loop_length.
Qed.

Lemma iadd_untouched (target source t' : @sig_array scalar)
    (index : list nat) (i : nat) :
  iadd convert add target index source = Ok t' →
  i ∉ index →
  arr_data t' !! i = arr_data target !! i.
Proof.
  unfold iadd. destruct (can_cast_same_kind _ _); [|discriminate].
  intros [= <-] Hi. cbn [arr_data]. apply iadd_loop_untouched.
  intros Hin. apply Hi. apply list_elem_of_fmap in Hin as ([j x] & -> & Hin).
  apply elem_of_zip_l in Hin. exact Hin.
Qed.

Lemma sum_loop_shape (part part' : @sig_array scalar)
    (tiles : list DataTile) :
  sum_loop zero convert add part tiles = Ok part' →
  length (arr_data part') = length (arr_data part)
  ∧ ∀ i, (∀ t, t ∈ tiles → i ∉ tile_sig_index t) →
         arr_data part' !! i = arr_data part !! i.
Proof.
  revert part. induction tiles as [|t tiles IH]; intros part.
  - by intros [= <-].
  - cbn [sum_loop]. intros H.
    apply result_bind_ok in H as (p1 & H1 & H).
    destruct (IH _ H) as [Hl Hu]. unfold sum_step in H1.
    rewrite Hl, (iadd_length _ _ _ _ H1). split; [done|].
    intros i Hi. rewrite Hu.
    + apply (iadd_untouched _ _ _ _ _ H1), Hi. by left.
    + intros t' Ht'. apply Hi. by right.
Qed.

(** X19: the accumulator that a task returns has as many elements as the
    signal, whatever the tiles; an element that no tile addresses is the
    zero it was created with, and a task without tiles returns the zero
    array. *)
Theorem sum_task_accumulator (sig_size : nat)
    (tiles : list (@DataTile scalar)) :
  SumFramesTask_call zero convert add sig_size []
  = Ok [mk_SumResultTile (mk_sig_array float32 (replicate sig_size zero))]
  ∧ ∀ out,
      SumFramesTask_call zero convert add sig_size tiles = Ok out →
      ∃ part,
        out = [mk_SumResultTile part]
        ∧ length (arr_data part) = sig_size
        ∧ ∀ i, (i < sig_size)%nat →
               (∀ t, t ∈ tiles → i ∉ tile_sig_index t) →
               arr_data part !! i = Some zero.
Proof.
  split; [reflexivity|]. intros out. unfold SumFramesTask_call. cbv zeta.
  intros H. apply result_bind_ok in H as (part & Hloop & [= <-]).
  apply sum_loop_shape in Hloop as [Hl Hu]. exists part.
  split; [done|]. unfold np_zeros in *. cbn [arr_data] in *.
  rewrite length_replicate in Hl. split; [done|].
  intros i Hi Hno. rewrite (Hu i Hno). by apply lookup_replicate_2.
Qed.

(** X20: merging a [float32] result tile into an accumulator of the same
    length.  The merge succeeds when the accumulator is a floating or a
    complex array, and raises the casting error of the in-place addition
    when it is a boolean or an integer array.  When it succeeds the
    accumulator keeps its data type and its length, and each element is
    the sum, computed in the common data type and converted back, of the
    element it held and the element of the tile. *)
Theorem reduce_into_result_casting (t : SumResultTile)
    (res : @sig_array scalar) :
  arr_dtype (data t) = float32 →
  length (arr_data (data t)) = length (arr_data res) →
  let loop := result_type (arr_dtype res) float32 in
  match reduce_into_result convert add t res with
  | Ok res' =>
      kind (arr_dtype res) ∈ ["f"; "c"]
      ∧ arr_dtype res' = arr_dtype res
      ∧ arr_data res'
        = zip_with (λ p x, convert loop (arr_dtype res)
                             (add loop (convert (arr_dtype res) loop p)
                                (convert float32 loop x)))
            (arr_data res) (arr_data (data t))
  | Raise e => e = UFuncTypeError ∧ kind (arr_dtype res) ∈ ["b"; "u"; "i"]
  end.
Proof.
  intros Ht Hlen. cbv zeta. unfold reduce_into_result, iadd. rewrite Ht.
  destruct (can_cast_same_kind _ _) eqn:Ec.
  - split; [|split; [done|]].
    + revert Ec. destruct (arr_dtype res); cbn; try discriminate;
        intros _; compute_decide.
    + cbn [arr_data].
      exact (iadd_elementwise _ [] (arr_data res) (arr_data (data t)) Hlen).
  - split; [done|]. revert Ec.
    destruct (arr_dtype res); cbn; try discriminate; intros _;
      compute_decide.
Qed.

End Accumulator.

(** ** The sum of the frames, with an exact addition *)

Section ExactSum.
Context {scalar : Type}.
Variable zero : scalar.
Variable convert : dtype → dtype → scalar → scalar.
Variable add : dtype → scalar → scalar → scalar.
Variable plus : scalar → scalar → scalar.

Lemma zip_with_foldl_assoc (acc z : list scalar) (rows : list (list scalar)) :
  (∀ x y w, plus x (plus y w) = plus (plus x y) w) →
  zip_with plus acc (foldl (zip_with plus) z rows)
  = foldl (zip_with plus) (zip_with plus acc z) rows.
Proof.
  intros Hassoc. revert acc z.
  induction rows as [|r rows IH]; intros acc z; [done|].
  cbn [foldl]. rewrite IH. f_equal.
  revert z r. induction acc as [|a acc IHa]; intros [|b z] [|c r]; cbn;
    try done.
  by rewrite Hassoc, IHa.
Qed.

Lemma zip_with_zero_r (n : nat) (acc : list scalar) :
  (∀ x, plus x zero = x) →
  length acc = n → zip_with plus acc (replicate n zero) = acc.
Proof.
  intros Hz. revert n. induction acc as [|a acc IH]; intros [|n] Hl;
    try done.
  cbn. rewrite Hz, IH; [done|]. by injection Hl.
Qed.

Lemma foldl_zip_with_length (n : nat) (acc : list scalar)
    (rows : list (list scalar)) :
  length acc = n → Forall (λ row, length row = n) rows →
  length (foldl (zip_with plus) acc rows) = n.
Proof.
  revert acc. induction rows as [|r rows IH]; intros acc Hl Hr; [done|].
  apply Forall_cons in Hr as [Hr1 Hr]. cbn [foldl]. apply IH; [|done].
  rewrite length_zip_with. lia.
Qed.

(** The addition does not round: it is the addition [plus] in every data
    type, associative, with zero as its neutral element, and conversions
    leave the elements as they are. *)
Hypothesis convert_exact : ∀ from to x, convert from to x = x.
Hypothesis add_plus : ∀ dt x y, add dt x y = plus x y.
Hypothesis plus_assoc : ∀ x y w, plus x (plus y w) = plus (plus x y) w.
Hypothesis plus_zero_r : ∀ x, plus x zero = x.

Lemma fmap_convert_exact (from to : dtype) (row : list scalar) :
  convert from to <$> row = row.
Proof.
  rewrite <- (list_fmap_id row) at 2. apply list_fmap_ext.
  intros ???. apply convert_exact.
Qed.

Lemma tile_sum_exact (t : DataTile) :
  arr_data (tile_sum zero convert add t)
  = foldl (zip_with plus) (replicate (length (tile_sig_index t)) zero)
      (tile_data t).
Proof.
  unfold tile_sum. cbn [arr_data]. rewrite convert_exact.
  generalize (replicate (length (tile_sig_index t)) zero).
  induction (tile_data t) as [|r rows IH]; intros acc; [done|].
  cbn [foldl]. rewrite fmap_convert_exact, <- IH. f_equal.
  apply zip_with_ext; [|done..]. intros. apply add_plus.
Qed.

Lemma astype_exact (dt : dtype) (t : DataTile) :
  tile_data (astype convert dt t) = tile_data t
  ∧ tile_sig_index (astype convert dt t) = tile_sig_index t.
Proof.
  unfold astype. cbn. split; [|done].
  rewrite <- (list_fmap_id (tile_data t)) at 2. apply list_fmap_ext.
  intros ???. apply fmap_convert_exact.
Qed.

Lemma sum_step_exact (n : nat) (acc : list scalar) (t : DataTile) :
  length acc = n → full_tile n t →
  sum_step zero convert add (mk_sig_array float32 acc) t
  = Ok (mk_sig_array float32 (foldl (zip_with plus) acc (tile_data t))).
Proof.
  intros Hl (Hidx & Hrows & Hk).
  pose proof (sum_step_float32 zero convert add (mk_sig_array float32 acc) t
                eq_refl) as Hs.
  destruct (sum_step zero convert add (mk_sig_array float32 acc) t)
    as [part'|e] eqn:E; [|by destruct Hs as [_ ?]].
  clear Hs. revert E. unfold sum_step. cbv zeta.
  set (src := tile_sum zero convert add _).
  assert (arr_data src
          = foldl (zip_with plus) (replicate n zero) (tile_data t)) as Hsrc.
  { unfold src. rewrite tile_sum_exact.
    destruct (bool_decide _).
    - by rewrite (proj1 (astype_exact float32 t)),
        (proj2 (astype_exact float32 t)), Hidx, length_seq.
    - by rewrite Hidx, length_seq. }
  assert (length (arr_data src) = length acc) as Hls.
  { rewrite Hsrc, Hl. apply foldl_zip_with_length; [|done].
    apply length_replicate. }
  clearbody src. unfold iadd.
  destruct (can_cast_same_kind _ _); [|discriminate].
  intros [= <-]. cbn [arr_dtype arr_data]. f_equal. f_equal.
  rewrite Hidx, <- Hl.
  etrans; [exact (iadd_elementwise _ [] acc (arr_data src) Hls)|].
  cbn [app].
  rewrite (zip_with_ext _ plus acc acc (arr_data src) (arr_data src));
    [|intros; by rewrite !convert_exact, add_plus|done..].
  rewrite Hsrc, zip_with_foldl_assoc by done.
  by rewrite (zip_with_zero_r n acc plus_zero_r Hl).
Qed.

(** X21: were the addition exact, a task whose tiles span the whole
    signal would return the sum of all the frames of its tiles, added
    frame by frame in the order of the tiles: the result does not depend
    on how the frames are grouped into tiles. *)
Theorem sum_task_sums_frames (n : nat) (tiles : list (@DataTile scalar)) :
  Forall (full_tile n) tiles →
  SumFramesTask_call zero convert add n tiles
  = Ok [mk_SumResultTile
          (mk_sig_array float32
             (foldl (zip_with plus) (replicate n zero)
                (concat (tile_data <$> tiles))))].
Proof.
  intros Hall. unfold SumFramesTask_call, np_zeros. cbv zeta.
  assert (∀ acc, length acc = n →
            sum_loop zero convert add (mk_sig_array float32 acc) tiles
            = Ok (mk_sig_array float32
                    (foldl (zip_with plus) acc
                       (concat (tile_data <$> tiles))))) as Hloop.
  { induction Hall as [|t tiles Ht Hall IH]; intros acc Hl; [done|].
    cbn [sum_loop fmap list_fmap concat].
    rewrite (sum_step_exact n) by done. cbn [mbind result_bind].
    rewrite foldl_app. apply IH.
    apply foldl_zip_with_length; [done | apply Ht]. }
  by rewrite Hloop by apply length_replicate.
Qed.

End ExactSum.

(** ** The further properties on the sample files *)

(** X5, on the header of the ten-frame file. *)
Lemma decoded_header_layout_witness :
  dom sample_header_map = list_to_set HEADER_FIELDS.*1
  ∧ sample_header_map !! "width"
    = Some (VInt (le_uint (take 4 (drop 548 (take HEADER_SIZE ten_frames))))).
Proof.
  destruct (decoded_header_layout (take HEADER_SIZE ten_frames)
              sample_header_map)
    as (Hdom & _ & _ & _ & Hw & _); [compute_decide|].
  split; [exact Hdom | exact Hw].
Defined.

(** X6, on the same header. *)
Lemma decoded_header_ranges_witness :
  ∃ n, sample_header_map !! "true_image_size" = Some (VInt n)
       ∧ (0 ≤ n < 2 ^ 32)%Z.
Proof.
  destruct (decoded_header_ranges (take HEADER_SIZE ten_frames)
              sample_header_map) as [H _]; [compute_decide|].
  apply (H "true_image_size" DWORD).
  apply (list_elem_of_lookup_2 _ 13%nat). reflexivity.
Defined.

(** X7, on the ten-frame file. *)
Lemma frame_count_of_file_witness :
  ∃ count,
    count_frames (Z.of_nat (length ten_frames))
      (image_offset_of sample_header_map)
      (hdr sample_header_map "true_image_size") = Ok count
    ∧ count
      = Z.quot (Z.of_nat (length ten_frames) - image_offset_of sample_header_map)
          (hdr sample_header_map "true_image_size").
Proof.
  destruct (frame_count_of_file ten_frames sample_header_map) as [_ H];
    [compute_decide | vm_compute; reflexivity |].
  destruct H as (count & Hc & Hq & _); [vm_compute; discriminate|].
  exists count. split; [exact Hc | exact Hq].
Defined.

(** X9, on the ten-frame file with scan size (2, 5). *)
Lemma initialize_postcondition_witness :
  ∃ header,
    _header sample_run.2 = Some header
    ∧ _image_count sample_run.2 = Some (np_prod [2; 5]%Z)
    ∧ _timestamp_micro sample_run.2 = Some (5 <=? hdr header "version")%Z.
Proof.
  destruct (initialize_postcondition no_mrc id sample_fs sample_dataset
              sample_run.2)
    as (content & header & _ & _ & Hh & _ & Ht & _ & _ & Hc & _);
    [apply run_ok; vm_compute; reflexivity|].
  exists header. split; [exact Hh|]. split; [exact Hc | exact Ht].
Defined.

(** X10, on the same dataset. *)
Lemma initialize_idempotent_witness :
  _do_initialize no_mrc id sample_fs sample_run.2 = (Ok tt, sample_run.2).
Proof.
  apply (initialize_idempotent no_mrc id sample_fs sample_dataset).
  apply run_ok. vm_compute. reflexivity.
Defined.

(** X11, on the same dataset. *)
Lemma fileset_of_initialized_witness :
  ∃ fileset, _get_fileset sample_run.2 = Ok fileset
             ∧ length (fileset_files fileset) = 1%nat.
Proof.
  destruct (fileset_of_initialized no_mrc id sample_fs sample_dataset
              sample_run.2) as (header & footer & _ & _ & _ & H);
    [apply run_ok; vm_compute; reflexivity|].
  eexists. split; [exact H | reflexivity].
Defined.

(** X13, on the ten-frame file, for which a count of 10 is detected. *)
Lemma detected_scan_size_fits_witness :
  (_do_initialize no_mrc id sample_fs (__init__ "a.seq" [10]%Z 4)).1
  ≠ Raise (DataSetException scan_size_mismatch).
Proof.
  destruct (detected_scan_size_fits no_mrc id sample_fs "a.seq" "10" 10 4)
    as [H _]; [vm_compute; reflexivity | vm_compute; reflexivity | lia |].
  exact H.
Defined.

(** X16, on the initialized ten-frame dataset. *)
Lemma check_valid_of_initialized_witness :
  ∃ header,
    _header sample_run.2 = Some header
    ∧ (check_valid sample_run.2 = Ok tt
       ↔ hdr header "magic" = 0xFEED%Z
         ∧ hdr header "compression_format" = 0%Z
         ∧ hdr header "image_format" = 100%Z).
Proof.
  destruct (check_valid_of_initialized no_mrc id sample_fs sample_dataset
              sample_run.2) as (header & Hh & Hv & _);
    [apply run_ok; vm_compute; reflexivity|].
  exists header. split; [exact Hh | exact Hv].
Defined.

(** X17, on the same dataset, with four cores. *)
Lemma partitions_of_initialized_witness :
  ∃ parts count,
    get_partitions (λ fileset _ _, fileset) sample_run.2 = Ok parts
    ∧ _image_count sample_run.2 = Some count
    ∧ chain 0 (partition_range <$> parts) count.
Proof.
  destruct (partitions_of_initialized no_mrc id (λ fileset _ _, fileset)
              sample_fs sample_dataset sample_run.2)
    as (parts & fileset & filesize & count & Hp & _ & _ & Hc & _ & _ & Hch
        & _);
    [apply run_ok; vm_compute; reflexivity | vm_compute; split; [discriminate|reflexivity]
    | vm_compute; discriminate |].
  exists parts, count. split; [exact Hp|]. split; [exact Hc | exact Hch].
Defined.

(** X18, on the same dataset. *)
Lemma job_of_initialized_witness :
  ∃ header,
    _header sample_run.2 = Some header
    ∧ get_result_shape (mk_SumFramesJob sample_run.2)
      = Ok [hdr header "height"; hdr header "width"].
Proof.
  destruct (job_of_initialized no_mrc id (λ fileset _ _, fileset)
              sample_fs sample_dataset sample_run.2)
    as (header & parts & Hh & Hs & _);
    [apply run_ok; vm_compute; reflexivity|].
  exists header. split; [exact Hh | exact Hs].
Defined.

(** X20, on integers: a [float32] tile merged into a [float64]
    accumulator. *)
Lemma reduce_into_result_casting_witness :
  ∃ res',
    reduce_into_result (λ _ _ x, x) (λ _, Z.add)
      (mk_SumResultTile (mk_sig_array float32 [11; 122; 233]%Z))
      (mk_sig_array (DFloat 64) [1; 1; 1]%Z) = Ok res'
    ∧ arr_dtype res' = DFloat 64.
Proof.
  pose proof (reduce_into_result_casting (λ _ _ x, x) (λ _, Z.add)
                (mk_SumResultTile (mk_sig_array float32 [11; 122; 233]%Z))
                (mk_sig_array (DFloat 64) [1; 1; 1]%Z) eq_refl eq_refl) as H.
  cbv zeta in H.
  destruct (reduce_into_result _ _ _ _) as [res'|e].
  - exists res'. split; [reflexivity|]. apply H.
  - exfalso. destruct H as [_ H]. revert H.
    apply (bool_decide_unpack (_ ∉ _)). vm_compute. exact I.
Defined.

(** X21, on integers, where the addition is exact: three frames in two
    tiles. *)
Lemma sum_task_sums_frames_witness :
  SumFramesTask_call 0%Z (λ _ _ x, x) (λ _, Z.add) 3
    [ mk_DataTile (DUInt 8) [[1; 2; 3]; [10; 20; 30]]%Z [0; 1; 2]%nat;
      mk_DataTile (DFloat 64) [[100; 200; 300]]%Z [0; 1; 2]%nat ]
  = Ok [ mk_SumResultTile (mk_sig_array float32 [111; 222; 333]%Z) ].
Proof.
  apply (sum_task_sums_frames 0%Z (λ _ _ x, x) (λ _, Z.add) Z.add
           (λ _ _ _, eq_refl) (λ _ _ _, eq_refl) Z.add_assoc Z.add_0_r 3).
  repeat constructor; discriminate.
Defined.
